(** * canvas: the drawing-layer stack and its four backend compilers

    A shallow embedding of [canvas.go].  The canvas records path and text
    layers together with a copy of the draw state, and each backend walks
    the layers and talks to a sink: an [io.Writer] for SVG, a page writer
    for PDF, an EPS writer, and an [image.RGBA] for the rasteriser.

    - [float64] is Rocq's primitive binary64 float, so comparisons, NaN
      tests and the pixel arithmetic of [WriteImage] compute as in Go.
    - A sink is the list of calls made on it, in order; a backend is a
      function in a small writer monad that can also panic.
    - The path geometry, the stroking kernel, the serialisers and the text
      collaborator live in other files of the package; they are the fields
      of the class [Externals]. *)

From Stdlib Require Import ZArith QArith Qround Floats Ascii.
From stdpp Require Import gmap strings list pretty.

Set Default Proof Using "Type".
Local Open Scope Z_scope.

(** ** Numbers *)

Definition float64 := float.
Bind Scope float_scope with float64.

Module f64.
Definition lt (x y : float64) : bool := PrimFloat.ltb x y.
Definition neq (x y : float64) : bool := negb (PrimFloat.eqb x y).
Definition IsNaN (x : float64) : bool := PrimFloat.is_nan x.
Definition NaN : float64 := PrimFloat.nan.

(** The rational a finite float stands for. *)
Definition toQ (x : float64) : option Q :=
  match Prim2SF x with
  | S754_zero _ => Some 0%Q
  | S754_finite s m e =>
      let v := if (0 <=? e)%Z then inject_Z (Z.shiftl (Z.pos m) e)
               else Qmake (Z.pos m) (2 ^ Z.to_pos (- e)) in
      Some (if s then Qopp v else v)
  | _ => None
  end.

(** Go's conversion [int(x)] on a 64-bit platform: the fraction is
    discarded.  For NaN, the infinities and values outside [int] the
    language leaves the result to the implementation: [None]. *)
Definition toInt (x : float64) : option Z :=
  match Prim2SF x with
  | S754_zero _ => Some 0%Z
  | S754_finite s m e =>
      let n := Z.shiftl (Z.pos m) e in
      let n := if s then (- n)%Z else n in
      if ((- 2 ^ 63 <=? n) && (n <? 2 ^ 63))%Z then Some n else None
  | _ => None
  end.
End f64.

Definition MmPerInch : float64 := 0x1.9666666666666p+4%float.
(** [1 / 25.4] is a constant expression in Go: it is evaluated exactly and
    rounded once, to this binary64 value (0.03937007874015748). *)
Definition InchPerMm : float64 := 0x1.42850a142850ap-5%float.

(** ** Colours, cappers and joiners *)

Module color.
Record RGBA := mk { R : Z; G : Z; B : Z; A : Z }.
#[global] Instance RGBA_eq_dec : EqDecision RGBA.
Proof. solve_decision. Defined.
End color.

(** Modelled from the spec: the package colours, declared outside
    [canvas.go]; the default fill is opaque black, the default stroke is
    transparent and the raster background is fully opaque white. *)
Definition Black : color.RGBA := color.mk 0 0 0 255.
Definition White : color.RGBA := color.mk 255 255 255 255.
Definition Transparent : color.RGBA := color.mk 0 0 0 0.

(** Modelled from the spec: [Capper] is a Go interface, implemented by the
    three cappers of the package.  A value of any other dynamic type (a
    foreign implementation, or the nil interface) is [otherCapper]: every
    type assertion on it fails. *)
Inductive Capper : Type :=
  | buttCapper
  | roundCapper
  | squareCapper
  | otherCapper (tag : positive).

(** Modelled from the spec: [Joiner] is a Go interface as well.  The miter
    joiner carries its gap joiner and its bound; [canvas.go] reads the
    bound as [limit] in the SVG backend and as [length] in the PDF backend,
    and the struct is declared in another file, so both selectors are kept
    as fields. *)
Inductive Joiner : Type :=
  | bevelJoiner
  | roundJoiner
  | arcsJoiner (gapJoiner : Joiner) (limit : float64)
  | miterJoiner (gapJoiner : Joiner) (limit length : float64)
  | otherJoiner (tag : positive).

Inductive fillRule := NonZero | EvenOdd.

#[global] Instance fillRule_eq_dec : EqDecision fillRule.
Proof. solve_decision. Defined.

Record drawState := mkDrawState {
  fillColor : color.RGBA;
  strokeColor : color.RGBA;
  strokeWidth : float64;
  strokeCapper : Capper;
  strokeJoiner : Joiner;
  dashOffset : float64;
  dashes : list float64;
}.

(** The setters below replace a field of the current state; no code of
    this file writes through the [dashes] slice, so a list by value models
    it. *)
Definition set_fillColor (c : color.RGBA) (s : drawState) : drawState :=
  mkDrawState c (strokeColor s) (strokeWidth s) (strokeCapper s)
    (strokeJoiner s) (dashOffset s) (dashes s).
Definition set_strokeColor (c : color.RGBA) (s : drawState) : drawState :=
  mkDrawState (fillColor s) c (strokeWidth s) (strokeCapper s)
    (strokeJoiner s) (dashOffset s) (dashes s).
Definition set_strokeWidth (x : float64) (s : drawState) : drawState :=
  mkDrawState (fillColor s) (strokeColor s) x (strokeCapper s)
    (strokeJoiner s) (dashOffset s) (dashes s).
Definition set_strokeCapper (k : Capper) (s : drawState) : drawState :=
  mkDrawState (fillColor s) (strokeColor s) (strokeWidth s) k
    (strokeJoiner s) (dashOffset s) (dashes s).
Definition set_strokeJoiner (j : Joiner) (s : drawState) : drawState :=
  mkDrawState (fillColor s) (strokeColor s) (strokeWidth s) (strokeCapper s)
    j (dashOffset s) (dashes s).
Definition set_dashes (o : float64) (ds : list float64) (s : drawState)
  : drawState :=
  mkDrawState (fillColor s) (strokeColor s) (strokeWidth s) (strokeCapper s)
    (strokeJoiner s) o ds.

(** ** Effects

    A backend threads the state of its sink and can panic.  For the three
    text backends the state is the list of calls made so far; for the
    rasteriser it is the image. *)

Inductive outcome (St A : Type) : Type :=
  | Ok (a : A) (s : St)
  | Panic (msg : string) (s : St).
Arguments Ok {St A} a s.
Arguments Panic {St A} msg s.

Definition Wr (St A : Type) : Type := St -> outcome St A.

Definition ret {St A} (a : A) : Wr St A := fun s => Ok a s.
Definition bind {St A B} (m : Wr St A) (k : A -> Wr St B) : Wr St B :=
  fun s =>
    match m s with
    | Ok a s' => k a s'
    | Panic msg s' => Panic msg s'
    end.
Definition modify {St} (f : St -> St) : Wr St unit := fun s => Ok tt (f s).
Definition emit {E} (e : E) : Wr (list E) unit := modify (fun out => out ++ [e]).
Definition panic {St A} (msg : string) : Wr St A := fun s => Panic msg s.
Definition when {St} (b : bool) (m : Wr St unit) : Wr St unit :=
  if b then m else ret tt.

Notation "x <- m ;; k" := (bind m (fun x => k))
  (at level 20, m at level 99, k at level 200, only parsing).
Notation "m ;; k" := (bind m (fun _ => k))
  (at level 100, k at level 200, right associativity, only parsing).

(** [for _, x := range xs { body x }] *)
Fixpoint forEach {St X} (body : X -> Wr St unit) (xs : list X) : Wr St unit :=
  match xs with
  | [] => ret tt
  | x :: xs' => body x ;; forEach body xs'
  end.

(** [for i, x := range xs { body i x }], counting from [i] *)
Fixpoint forEachIdx {St X} (body : nat -> X -> Wr St unit) (i : nat)
    (xs : list X) : Wr St unit :=
  match xs with
  | [] => ret tt
  | x :: xs' => body i x ;; forEachIdx body (S i) xs'
  end.

(** [xs[i]], which panics out of range *)
Definition index {St X} (xs : list X) (i : nat) : Wr St X :=
  match xs !! i with
  | Some x => ret x
  | None => panic "runtime error: index out of range"
  end.

Definition final {St A} (r : outcome St A) : St :=
  match r with Ok _ s => s | Panic _ s => s end.
Definition panicked {St A} (r : outcome St A) : bool :=
  match r with Ok _ _ => false | Panic _ _ => true end.

(** Calls on an [io.Writer]: [fmt.Fprintf] with its format and arguments,
    and [Write] with its bytes. *)
Inductive fmtArg := AFloat (x : float64) | AString (s : string).
Inductive svgCall :=
  | SVG_Fprintf (format : string) (args : list fmtArg)
  | SVG_Write (bytes : string).

(** Calls on a [*PDFPageWriter]. *)
Inductive pdfCall :=
  | PDF_SetFillColor (c : color.RGBA)
  | PDF_SetStrokeColor (c : color.RGBA)
  | PDF_SetLineWidth (x : float64)
  | PDF_SetLineCap (k : Capper)
  | PDF_SetLineJoin (j : Joiner)
  | PDF_SetDashes (o : float64) (ds : list float64)
  | PDF_Write (bytes : string).

(** Calls on an [*EPSWriter]. *)
Inductive epsCall :=
  | EPS_SetColor (c : color.RGBA)
  | EPS_Write (bytes : string).

(** ** Images *)

Module image.
Record Rectangle := mkRect { MinX : Z; MinY : Z; MaxX : Z; MaxY : Z }.

(** [image.Rect]: the corners are swapped where needed so that the
    rectangle is well formed. *)
Definition Rect (x0 y0 x1 y1 : Z) : Rectangle :=
  mkRect (Z.min x0 x1) (Z.min y0 y1) (Z.max x0 x1) (Z.max y0 y1).
Definition Dx (r : Rectangle) : Z := MaxX r - MinX r.
Definition Dy (r : Rectangle) : Z := MaxY r - MinY r.

(** [Pix] holds four bytes per pixel, row by row. *)
Record RGBA := mkRGBA { Pix : list Z; Stride : Z; Bounds : Rectangle }.

(** The allocation itself is not modelled: a list of any length exists. *)
Definition NewRGBA (r : Rectangle) : RGBA :=
  mkRGBA (replicate (Z.to_nat (4 * Dx r * Dy r)) 0) (4 * Dx r) r.

Definition pixel (c : color.RGBA) : list Z :=
  [color.R c; color.G c; color.B c; color.A c].

(** [draw.Draw(img, img.Bounds(), image.NewUniform(c), image.Point{},
    draw.Src)]: every pixel of the image becomes [c]. *)
Definition DrawUniformSrc (img : RGBA) (c : color.RGBA) : RGBA :=
  mkRGBA (mjoin (replicate (Z.to_nat (Dx (Bounds img) * Dy (Bounds img)))
                   (pixel c)))
         (Stride img) (Bounds img).

End image.

(** ** The collaborators *)

Definition FontPtr := positive.

Class Externals := {
  (** [*Path], with the geometry operations and the stroking kernel *)
  Path : Type;
  Empty : Path -> bool;
  Copy : Path -> Path;
  Translate : float64 -> float64 -> Path -> Path;
  Scale : float64 -> float64 -> Path -> Path;
  Rotate : float64 -> float64 -> float64 -> Path -> Path;
  Dash : float64 -> list float64 -> Path -> Path;
  Stroke : float64 -> Capper -> Joiner -> Path -> Path;
  ToSVG : Path -> string;
  ToPDF : Path -> string;
  ToPS : Path -> string;
  (** [vector.Rasterizer]: scan-convert a path at [dpm] on a [rw] by [rh]
      grid and paint it in one colour into the pixels of an image *)
  Rasterize : Path -> option Z -> option Z -> float64 -> float64 -> float64 ->
              color.RGBA -> image.Rectangle -> list Z -> list Z;
  (** [*Text] *)
  Text : Type;
  text_fonts : Text -> gmap FontPtr bool;
  ToPaths : Text -> list Path * list color.RGBA;
  Text_WriteSVG : Text -> float64 -> float64 -> float64 ->
                  Wr (list svgCall) unit;
  (** [*Font] *)
  font_name : FontPtr -> string;
  font_ToDataURI : FontPtr -> string;
  (** package variables and helpers *)
  toCSSColor : color.RGBA -> string;
  ButtCapper : Capper;
  MiterJoiner : Joiner;
}.

(** ** The canvas *)

Section Canvas.
Context {X : Externals}.

(** [FillRule] is a package variable read by the SVG and PDF backends. *)
Variable FillRule : fillRule.

Inductive layer : Type :=
  | pathLayer (path : Path) (ds : drawState)
  | textLayer (text : Text) (x y rot : float64).

Record C := mkC {
  w : float64;
  h : float64;
  layers : list layer;
  fonts : gmap FontPtr bool;
  C_drawState : drawState;
}.

Definition defaultDrawState : drawState := {|
  fillColor := Black;
  strokeColor := Transparent;
  strokeWidth := 1%float;
  strokeCapper := ButtCapper;
  strokeJoiner := MiterJoiner;
  dashOffset := 0%float;
  dashes := [];
|}.

Definition New (w h : float64) : C := mkC w h [] ∅ defaultDrawState.

Definition with_drawState (f : drawState -> drawState) (c : C) : C :=
  mkC (w c) (h c) (layers c) (fonts c) (f (C_drawState c)).

Definition SetFillColor (color : color.RGBA) (c : C) : C :=
  with_drawState (set_fillColor color) c.
Definition SetStrokeColor (color : color.RGBA) (c : C) : C :=
  with_drawState (set_strokeColor color) c.
Definition SetStrokeWidth (width : float64) (c : C) : C :=
  with_drawState (set_strokeWidth width) c.
Definition SetStrokeCapper (capper : Capper) (c : C) : C :=
  with_drawState (set_strokeCapper capper) c.
Definition SetStrokeJoiner (joiner : Joiner) (c : C) : C :=
  with_drawState (set_strokeJoiner joiner) c.
Definition SetDashes (dashOffset : float64) (dashes : list float64) (c : C)
  : C :=
  with_drawState (set_dashes dashOffset dashes) c.

Definition DrawPath (x y : float64) (path : Path) (c : C) : C :=
  if negb (Empty path) then
    let path := Translate x y (Copy path) in
    mkC (w c) (h c) (layers c ++ [pathLayer path (C_drawState c)])
        (fonts c) (C_drawState c)
  else c.

(** The loop [for font := range text.fonts { c.fonts[font] = true }]
    visits every key once, in an order Go does not fix; the map it
    builds does not depend on the order. *)
Definition DrawText (x y : float64) (text : Text) (c : C) : C :=
  let fonts := map_fold (fun font _ fs => <[font := true]> fs)
                        (fonts c) (text_fonts text) in
  mkC (w c) (h c) (layers c ++ [textLayer text x y 0%float])
      fonts (C_drawState c).

(** *** SVG *)

(** A double quote and a line feed, for the format strings. *)
Definition dq : string := String (Ascii.ascii_of_nat 34) EmptyString.
Definition nl : string := String (Ascii.ascii_of_nat 10) EmptyString.

Definition fill_active (ds : drawState) : bool :=
  bool_decide (color.A (fillColor ds) ≠ 0).
Definition stroke_active (ds : drawState) : bool :=
  bool_decide (color.A (strokeColor ds) ≠ 0) && f64.lt 0%float (strokeWidth ds).

Definition pathLayer_WriteSVG (path : Path) (ds : drawState) (h : float64)
  : Wr (list svgCall) unit :=
  let p := Translate 0%float h (Scale 1%float (-1)%float (Copy path)) in
  emit (SVG_Write ("<path d=" +:+ dq)) ;;
  emit (SVG_Write (ToSVG p)) ;;
  (if bool_decide (color.A (strokeColor ds) ≠ 0)
      && f64.lt 0%float (strokeWidth ds) then
     emit (SVG_Fprintf (dq +:+ " style=" +:+ dq +:+ "stroke:%s")
             [AString (toCSSColor (strokeColor ds))]) ;;
     when (f64.neq (strokeWidth ds) 1%float)
       (emit (SVG_Fprintf ";stroke-width:%g" [AFloat (strokeWidth ds)])) ;;
     match strokeCapper ds with
     | roundCapper => emit (SVG_Fprintf ";stroke-linecap:round" [])
     | squareCapper => emit (SVG_Fprintf ";stroke-linecap:square" [])
     | buttCapper => ret tt
     | otherCapper _ => panic "SVG: line cap not support"
     end ;;
     match strokeJoiner ds with
     | bevelJoiner => emit (SVG_Fprintf ";stroke-linejoin:bevel" [])
     | roundJoiner => emit (SVG_Fprintf ";stroke-linejoin:round" [])
     | arcsJoiner _ _ => emit (SVG_Fprintf ";stroke-linejoin:arcs" [])
     | miterJoiner _ limit _ =>
         if negb (f64.IsNaN limit) then
           emit (SVG_Fprintf ";stroke-linejoin:miter-clip" []) ;;
           when (f64.neq limit 4%float)
             (emit (SVG_Fprintf ";stroke-miterlimit:%g" [AFloat limit]))
         else ret tt
     | otherJoiner _ => panic "SVG: line join not support"
     end ;;
     match dashes ds with
     | [] => ret tt
     | dash0 :: rest =>
         emit (SVG_Fprintf ";stroke-dasharray:%g" [AFloat dash0]) ;;
         forEach (fun dash => emit (SVG_Fprintf " %g" [AFloat dash])) rest ;;
         when (f64.lt 0%float (dashOffset ds))
           (emit (SVG_Fprintf ";stroke-dashoffset:%g"
                    [AFloat (dashOffset ds)]))
     end ;;
     when (bool_decide (fillColor ds ≠ Black))
       (if bool_decide (color.A (fillColor ds) ≠ 0) then
          emit (SVG_Fprintf ";fill:%s" [AString (toCSSColor (fillColor ds))])
        else emit (SVG_Fprintf ";fill:none" [])) ;;
     when (bool_decide (FillRule = EvenOdd))
       (emit (SVG_Fprintf ";fill-rule:evenodd" []))
   else
     when (bool_decide (fillColor ds ≠ Black))
       (if bool_decide (color.A (fillColor ds) ≠ 0) then
          emit (SVG_Fprintf (dq +:+ " fill=" +:+ dq +:+ "%s")
                  [AString (toCSSColor (fillColor ds))])
        else emit (SVG_Fprintf (dq +:+ " fill=" +:+ dq +:+ "none") []))) ;;
  emit (SVG_Write (dq +:+ "/>")).

Definition textLayer_WriteSVG (text : Text) (x y rot : float64)
    (h : float64) : Wr (list svgCall) unit :=
  Text_WriteSVG text x (h - y)%float rot.

Definition layer_WriteSVG (l : layer) (h : float64)
  : Wr (list svgCall) unit :=
  match l with
  | pathLayer path ds => pathLayer_WriteSVG path ds h
  | textLayer text x y rot => textLayer_WriteSVG text x y rot h
  end.

Definition svg_header : string :=
  "<svg xmlns=" +:+ dq +:+ "http://www.w3.org/2000/svg" +:+ dq
  +:+ " version=" +:+ dq +:+ "1.1" +:+ dq
  +:+ " shape-rendering=" +:+ dq +:+ "geometricPrecision" +:+ dq
  +:+ " width=" +:+ dq +:+ "%g" +:+ dq
  +:+ " height=" +:+ dq +:+ "%g" +:+ dq
  +:+ " viewBox=" +:+ dq +:+ "0 0 %g %g" +:+ dq +:+ ">".

(** The fonts are written in the order of [map_to_list]; Go ranges over
    the map in an unspecified order. *)
Definition C_WriteSVG (c : C) : Wr (list svgCall) unit :=
  emit (SVG_Fprintf svg_header
          [AFloat (w c); AFloat (h c); AFloat (w c); AFloat (h c)]) ;;
  when (0 <? size (fonts c))%nat
    (emit (SVG_Fprintf "<defs><style>" []) ;;
     forEach (fun f =>
                emit (SVG_Fprintf
                        (nl +:+ "@font-face{font-family:'%s';src:url('%s');}")
                        [AString (font_name f); AString (font_ToDataURI f)]))
             (map_to_list (fonts c)).*1 ;;
     emit (SVG_Fprintf (nl +:+ "</style></defs>") [])) ;;
  forEach (fun l => layer_WriteSVG l (h c)) (layers c) ;;
  emit (SVG_Fprintf "</svg>" []).

(** *** PDF *)

(** [1 < len(data) && data[len(data)-1] == 'h'] *)
Definition ends_in_h (data : string) : bool :=
  (1 <? String.length data)%nat
  && bool_decide (String.get (String.length data - 1) data = Some "h"%char).

Definition is_arcsJoiner (j : Joiner) : bool :=
  match j with arcsJoiner _ _ => true | _ => false end.
Definition is_bevelJoiner (j : Joiner) : bool :=
  match j with bevelJoiner => true | _ => false end.

(** The stroke settings the PDF backend does not hand to the page
    writer: the arcs joiner, the miter joiner whose [length] is NaN, and
    the miter joiner whose gap joiner is not the bevel joiner. *)
Definition strokeUnsupported (j : Joiner) : bool :=
  let strokeUnsupported := is_arcsJoiner j in
  match j with
  | miterJoiner gapJoiner _ length =>
      if f64.IsNaN length then true
      else if negb (is_bevelJoiner gapJoiner) then true
      else strokeUnsupported
  | _ => strokeUnsupported
  end.

Definition star : Wr (list pdfCall) unit :=
  when (bool_decide (FillRule = EvenOdd)) (emit (PDF_Write "*")).

Definition pathLayer_WritePDF (path : Path) (ds : drawState)
  : Wr (list pdfCall) unit :=
  let fill := bool_decide (color.A (fillColor ds) ≠ 0) in
  let stroke := bool_decide (color.A (strokeColor ds) ≠ 0)
                && f64.lt 0%float (strokeWidth ds) in
  if negb fill && negb stroke then ret tt
  else
    let data := ToPDF path in
    let closed := ends_in_h data in
    let data := if closed then String.substring 0 (String.length data - 2) data
                else data in
    let differentAlpha :=
      fill && stroke
      && bool_decide (color.A (fillColor ds) ≠ color.A (strokeColor ds)) in
    let strokeUnsupported := strokeUnsupported (strokeJoiner ds) in
    if differentAlpha || strokeUnsupported then
      emit (PDF_SetFillColor (fillColor ds)) ;;
      emit (PDF_Write " ") ;;
      emit (PDF_Write data) ;;
      emit (PDF_Write " f") ;;
      star ;;
      if strokeUnsupported then
        let strokePath := Copy path in
        let strokePath :=
          if (0 <? length (dashes ds))%nat
          then Dash (dashOffset ds) (dashes ds) strokePath
          else strokePath in
        let strokePath :=
          Stroke (strokeWidth ds) (strokeCapper ds) (strokeJoiner ds)
                 strokePath in
        emit (PDF_SetFillColor (strokeColor ds)) ;;
        emit (PDF_Write " ") ;;
        emit (PDF_Write (ToPDF strokePath)) ;;
        emit (PDF_Write " f") ;;
        star
      else
        emit (PDF_SetStrokeColor (strokeColor ds)) ;;
        emit (PDF_SetLineWidth (strokeWidth ds)) ;;
        emit (PDF_SetLineCap (strokeCapper ds)) ;;
        emit (PDF_SetLineJoin (strokeJoiner ds)) ;;
        emit (PDF_SetDashes (dashOffset ds) (dashes ds)) ;;
        emit (PDF_Write " ") ;;
        emit (PDF_Write data) ;;
        (if closed then emit (PDF_Write " s") else emit (PDF_Write " S")) ;;
        star
    else
      when fill (emit (PDF_SetFillColor (fillColor ds))) ;;
      when stroke
        (emit (PDF_SetStrokeColor (strokeColor ds)) ;;
         emit (PDF_SetLineWidth (strokeWidth ds)) ;;
         emit (PDF_SetLineCap (strokeCapper ds)) ;;
         emit (PDF_SetLineJoin (strokeJoiner ds)) ;;
         emit (PDF_SetDashes (dashOffset ds) (dashes ds))) ;;
      emit (PDF_Write " ") ;;
      emit (PDF_Write (ToPDF path)) ;;
      (if fill && stroke then
         if closed then emit (PDF_Write " b") else emit (PDF_Write " B")
       else if fill then emit (PDF_Write " f")
       else if closed then emit (PDF_Write " s") else emit (PDF_Write " S")) ;;
      when fill star.

(** [state := defaultDrawState; state.fillColor = colors[i]] *)
(** In the text layers [path.Rotate(...).Translate(...)] is called for its
    effect on [path]: the path methods change their receiver and return
    it, which is why [DrawPath] and [WriteSVG] work on a [Copy]. *)
Definition text_state (color : color.RGBA) : drawState :=
  set_fillColor color defaultDrawState.

Definition textLayer_WritePDF (text : Text) (x y rot : float64)
  : Wr (list pdfCall) unit :=
  let '(paths, colors) := ToPaths text in
  forEachIdx
    (fun i path =>
       let path := Translate x y (Rotate rot 0%float 0%float path) in
       color <- index colors i ;;
       pathLayer_WritePDF path (text_state color))
    0%nat paths.

Definition layer_WritePDF (l : layer) : Wr (list pdfCall) unit :=
  match l with
  | pathLayer path ds => pathLayer_WritePDF path ds
  | textLayer text x y rot => textLayer_WritePDF text x y rot
  end.

(** The calls made on the page of the document; creating the document
    and closing it belong to the PDF writer. *)
Definition C_WritePDF (c : C) : Wr (list pdfCall) unit :=
  forEach layer_WritePDF (layers c).

(** *** EPS *)

Definition pathLayer_WriteEPS (path : Path) (ds : drawState)
  : Wr (list epsCall) unit :=
  emit (EPS_SetColor (fillColor ds)) ;;
  emit (EPS_Write " ") ;;
  emit (EPS_Write (ToPS path)) ;;
  emit (EPS_Write " fill").

Definition textLayer_WriteEPS (text : Text) (x y rot : float64)
  : Wr (list epsCall) unit :=
  let '(paths, colors) := ToPaths text in
  forEachIdx
    (fun i path =>
       let path := Translate x y (Rotate rot 0%float 0%float path) in
       color <- index colors i ;;
       pathLayer_WriteEPS path (text_state color))
    0%nat paths.

Definition layer_WriteEPS (l : layer) : Wr (list epsCall) unit :=
  match l with
  | pathLayer path ds => pathLayer_WriteEPS path ds
  | textLayer text x y rot => textLayer_WriteEPS text x y rot
  end.

Definition C_WriteEPS (c : C) : Wr (list epsCall) unit :=
  forEach (fun l => emit (EPS_Write nl) ;; layer_WriteEPS l) (layers c).

(** *** Raster *)

(** One rasteriser pass: a grid of [int(w*dpm+0.5)] by [int(h*dpm+0.5)]
    cells, the path scan-converted onto it and painted in [color]. *)
Definition raster_pass (path : Path) (dpm w h : float64)
    (color : color.RGBA) : Wr image.RGBA unit :=
  modify (fun img =>
    image.mkRGBA
      (Rasterize path (f64.toInt (w * dpm + 0.5)%float)
                 (f64.toInt (h * dpm + 0.5)%float) dpm w h color
                 (image.Bounds img) (image.Pix img))
      (image.Stride img) (image.Bounds img)).

Definition pathLayer_WriteImage (path : Path) (ds : drawState)
    (dpm w h : float64) : Wr image.RGBA unit :=
  when (bool_decide (color.A (fillColor ds) ≠ 0))
    (raster_pass path dpm w h (fillColor ds)) ;;
  when (bool_decide (color.A (strokeColor ds) ≠ 0)
        && f64.lt 0%float (strokeWidth ds))
    (let stroke := Copy path in
     let stroke := if (0 <? length (dashes ds))%nat
                   then Dash (dashOffset ds) (dashes ds) stroke
                   else stroke in
     let stroke := Stroke (strokeWidth ds) (strokeCapper ds)
                          (strokeJoiner ds) stroke in
     raster_pass stroke dpm w h (strokeColor ds)).

Definition textLayer_WriteImage (text : Text) (x y rot : float64)
    (dpm w h : float64) : Wr image.RGBA unit :=
  let '(paths, colors) := ToPaths text in
  forEachIdx
    (fun i path =>
       let path := Translate x y (Rotate rot 0%float 0%float path) in
       color <- index colors i ;;
       pathLayer_WriteImage path (text_state color) dpm w h)
    0%nat paths.

Definition layer_WriteImage (l : layer) (dpm w h : float64)
  : Wr image.RGBA unit :=
  match l with
  | pathLayer path ds => pathLayer_WriteImage path ds dpm w h
  | textLayer text x y rot => textLayer_WriteImage text x y rot dpm w h
  end.

(** The image before any layer is painted: allocated at the computed
    size and filled with white.  [None] where [int(...)] is left to the
    implementation. *)
Definition background (c : C) (dpi : float64) : option image.RGBA :=
  let dpm := (dpi * InchPerMm)%float in
  x1 ← f64.toInt (w c * dpm + 0.5)%float;
  y1 ← f64.toInt (h c * dpm + 0.5)%float;
  let img := image.NewRGBA (image.Rect 0 0 x1 y1) in
  Some (image.DrawUniformSrc img White).

Definition C_WriteImage (c : C) (dpi : float64)
  : option (outcome image.RGBA unit) :=
  let dpm := (dpi * InchPerMm)%float in
  img ← background c dpi;
  Some (forEach (fun l => layer_WriteImage l dpm (w c) (h c)) (layers c) img).

End Canvas.

(** ** A small instance of the package

    A stand-in for the geometry, text and font files of the package, which
    are not part of [canvas.go], to run the backends on concrete layers.
    A path is a list of segments and [Empty] holds of the path without
    segments; the serialisers print whole-number coordinates; the stroke
    outline is the centre line moved by the width to either side.  The
    theorems below are proved for every instance of [Externals], not for
    this one. *)

Module Demo.
Inductive seg :=
  | MoveTo (x y : float64)
  | LineTo (x y : float64)
  | Close.
Definition path := list seg.

Definition num (x : float64) : string :=
  match f64.toInt x with Some n => pretty n | None => "NaN" end.

Definition move (f : float64 -> float64 -> float64 * float64) (s : seg)
  : seg :=
  match s with
  | MoveTo x y => let '(x', y') := f x y in MoveTo x' y'
  | LineTo x y => let '(x', y') := f x y in LineTo x' y'
  | Close => Close
  end.
Definition translate (dx dy : float64) (p : path) : path :=
  map (move (fun x y => (x + dx, y + dy)%float)) p.
Definition scale (sx sy : float64) (p : path) : path :=
  map (move (fun x y => (x * sx, y * sy)%float)) p.
Definition stroke (width : float64) (_ : Capper) (_ : Joiner) (p : path)
  : path :=
  translate 0 width p ++ translate 0 (- width) p.

Definition serialise (m l z sep : string) (prefix : bool) (p : path)
  : string :=
  String.concat sep
    (map (fun s =>
            match s with
            | MoveTo x y => if prefix then m +:+ num x +:+ " " +:+ num y
                            else num x +:+ " " +:+ num y +:+ " " +:+ m
            | LineTo x y => if prefix then l +:+ num x +:+ " " +:+ num y
                            else num x +:+ " " +:+ num y +:+ " " +:+ l
            | Close => z
            end) p).

Record text := mkText {
  spans : list (path * color.RGBA);
  used_fonts : gmap FontPtr bool;
}.

Definition css (c : color.RGBA) : string :=
  "rgba(" +:+ pretty (color.R c) +:+ "," +:+ pretty (color.G c) +:+ ","
  +:+ pretty (color.B c) +:+ "," +:+ pretty (color.A c) +:+ ")".

Definition externals : Externals := {|
  Path := path;
  Empty := fun p => bool_decide (length p = 0%nat);
  Copy := fun p => p;
  Translate := translate;
  Scale := scale;
  Rotate := fun _ _ _ p => p;
  Dash := fun _ _ p => p;
  Stroke := stroke;
  ToSVG := serialise "M" "L" "z" "" true;
  ToPDF := serialise "m" "l" "h" " " false;
  ToPS := serialise "moveto" "lineto" "closepath" " " false;
  Rasterize := fun _ _ _ _ _ _ _ _ pix => pix;
  Text := text;
  text_fonts := used_fonts;
  ToPaths := fun t => ((spans t).*1, (spans t).*2);
  Text_WriteSVG := fun _ x y _ =>
    emit (SVG_Fprintf "<text x=%g y=%g>" [AFloat x; AFloat y]);
  font_name := fun f => "font" +:+ pretty (Z.pos f);
  font_ToDataURI := fun f => "data:font/" +:+ pretty (Z.pos f);
  toCSSColor := css;
  ButtCapper := buttCapper;
  MiterJoiner := miterJoiner bevelJoiner 4 4;
|}.

(** A closed square of side ten. *)
Definition square : @Path externals :=
  [MoveTo 0 0; LineTo 10 0; LineTo 10 10; LineTo 0 10; Close].
(** An open corner. *)
Definition corner : @Path externals :=
  [MoveTo 0 0; LineTo 10 0; LineTo 10 10].
(** The path without segments. *)
Definition nothing : @Path externals := [].

Definition Red : color.RGBA := color.mk 255 0 0 255.
Definition HalfRed : color.RGBA := color.mk 255 0 0 128.

Definition style (fill stroke : color.RGBA) (j : Joiner) : drawState :=
  mkDrawState fill stroke 1 buttCapper j 0 [].

(** A dashed red stroke of width two with round caps. *)
Definition dashed : drawState :=
  mkDrawState Red HalfRed 2 roundCapper (miterJoiner bevelJoiner 3 3)
    1 [1; 2; 3]%float.

(** A stroke with a capper that is none of the package's. *)
Definition foreign_cap : drawState :=
  mkDrawState Black Red 1 (otherCapper 1) (miterJoiner bevelJoiner 4 4) 0 [].

(** A miter joiner without bound, with the bevel joiner for its gaps. *)
Definition unbounded_miter : Joiner :=
  miterJoiner bevelJoiner f64.NaN f64.NaN.
End Demo.

(** ** Vocabulary of the properties *)

(** The calls a backend makes on a fresh sink. *)
Definition calls {E} (m : Wr (list E) unit) : list E := final (m []).

(** A later state-setting call of the canvas API. *)
Inductive setter :=
  | CallSetFillColor (color : color.RGBA)
  | CallSetStrokeColor (color : color.RGBA)
  | CallSetStrokeWidth (width : float64)
  | CallSetStrokeCapper (capper : Capper)
  | CallSetStrokeJoiner (joiner : Joiner)
  | CallSetDashes (dashOffset : float64) (dashes : list float64).

Definition call_setter `{Externals} (c : C) (s : setter) : C :=
  match s with
  | CallSetFillColor x => SetFillColor x c
  | CallSetStrokeColor x => SetStrokeColor x c
  | CallSetStrokeWidth x => SetStrokeWidth x c
  | CallSetStrokeCapper x => SetStrokeCapper x c
  | CallSetStrokeJoiner x => SetStrokeJoiner x c
  | CallSetDashes o ds => SetDashes o ds c
  end.

Definition call_setters `{Externals} (ss : list setter) (c : C) : C :=
  fold_left call_setter ss c.

(** The cappers and joiners of the package's variant sets. *)
Definition capper_known (k : Capper) : bool :=
  match k with otherCapper _ => false | _ => true end.
Definition joiner_known (j : Joiner) : bool :=
  match j with otherJoiner _ => false | _ => true end.

(** An attribute is emitted when [Fprintf] is called with its format. *)
Definition svg_emits (format : string) (cs : list svgCall) : bool :=
  existsb (fun c => match c with
                    | SVG_Fprintf f _ => String.eqb f format
                    | SVG_Write _ => false
                    end) cs.

(** A computation that returns after appending the calls [l]. *)
Definition emits {E} (m : Wr (list E) unit) (l : list E) : Prop :=
  forall s, m s = Ok tt (s ++ l).

(** [says format m b]: [m] returns, and [b] tells whether one of its calls
    is an [Fprintf] with [format]. *)
Definition says (format : string) (m : Wr (list svgCall) unit) (b : bool)
  : Prop :=
  exists l, emits m l /\ svg_emits format l = b.

(** PDF: the calls that forward stroke settings to the page writer. *)
Definition is_stroke_setting (c : pdfCall) : bool :=
  match c with
  | PDF_SetStrokeColor _ | PDF_SetLineWidth _ | PDF_SetLineCap _
  | PDF_SetLineJoin _ | PDF_SetDashes _ _ => true
  | PDF_SetFillColor _ | PDF_Write _ => false
  end.
Definition is_setting (c : pdfCall) : bool :=
  match c with PDF_Write _ => false | _ => true end.

(** The stroke is painted by the page writer itself. *)
Definition native_stroke (cs : list pdfCall) : bool :=
  existsb is_stroke_setting cs.

(** The colours of the fill passes, in order. *)
Definition fill_colors (cs : list pdfCall) : list color.RGBA :=
  omap (fun c => match c with PDF_SetFillColor x => Some x | _ => None end) cs.

(** The layer is one path with one paint operator: every setting comes
    before the first byte written. *)
Fixpoint single_paint (cs : list pdfCall) : bool :=
  match cs with
  | [] => true
  | PDF_Write _ :: cs' => forallb (fun c => negb (is_setting c)) cs'
  | _ :: cs' => single_paint cs'
  end.

(** The last operator written, the even-odd star apart. *)
Definition paint_operator (cs : list pdfCall) : option string :=
  match reverse cs with
  | PDF_Write s :: cs' =>
      if String.eqb s "*"
      then match cs' with PDF_Write op :: _ => Some op | _ => None end
      else Some s
  | _ => None
  end.

(** The joiners the PDF backend strokes by hand, in words: the arcs
    joiner, the miter joiner without bound (NaN), and the miter joiner
    whose gap joiner is not the bevel joiner. *)
Definition pdf_unsupported (j : Joiner) : bool :=
  match j with
  | arcsJoiner _ _ => true
  | miterJoiner gapJoiner _ length =>
      f64.IsNaN length || negb (is_bevelJoiner gapJoiner)
  | _ => false
  end.

(** The rule as the specification words it: the arcs joiner, or a miter
    joiner with a finite limit whose gap joiner is not the bevel joiner. *)
Definition spec_unsupported (j : Joiner) : bool :=
  match j with
  | arcsJoiner _ _ => true
  | miterJoiner gapJoiner limit _ =>
      negb (f64.IsNaN limit) && negb (is_bevelJoiner gapJoiner)
  | _ => false
  end.

Definition differentAlpha (ds : drawState) : bool :=
  fill_active ds && stroke_active ds
  && bool_decide (color.A (fillColor ds) ≠ color.A (strokeColor ds)).

(** The outline the stroking kernel makes of the path of a layer. *)
Definition stroke_outline `{Externals} (path : Path) (ds : drawState) : Path :=
  Stroke (strokeWidth ds) (strokeCapper ds) (strokeJoiner ds)
    (match dashes ds with
     | [] => Copy path
     | _ :: _ => Dash (dashOffset ds) (dashes ds) (Copy path)
     end).

(** [round] of the specification: to the nearest integer, halves away
    from zero; and the pixel count it asks for. *)
Definition round (q : Q) : Z :=
  if Qle_bool 0 q then Qfloor (q + (1 # 2)) else Qceiling (q - (1 # 2)).
Definition spec_pixels (len dpi : float64) : option Z :=
  l ← f64.toQ len; d ← f64.toQ dpi; Some (round (l * d / (254 # 10))).

(** The pixel size of the exported image. *)
Definition image_size `{Externals} (c : C) (dpi : float64) : option (Z * Z) :=
  r ← C_WriteImage c dpi;
  Some (image.Dx (image.Bounds (final r)), image.Dy (image.Bounds (final r))).

(** *** The statements of the specification that the code does not meet *)

(** Native operators exactly when the style is expressible, by the rule
    of the specification. *)
Definition native_when_expressible (cs : list pdfCall) (ds : drawState)
  : Prop :=
  single_paint cs = true
  <-> spec_unsupported (strokeJoiner ds) = false /\ differentAlpha ds = false.

(** In the fallback the stroke is never a native stroke: both passes are
    fills. *)
Definition fallback_fills_twice (cs : list pdfCall) (ds : drawState) : Prop :=
  differentAlpha ds = true \/ spec_unsupported (strokeJoiner ds) = true ->
  native_stroke cs = false /\ fill_colors cs = [fillColor ds; strokeColor ds].

(** EPS fills the outline of an active stroke in the stroke colour. *)
Definition eps_fills_outline `{Externals} (cs : list epsCall) (path : Path)
    (ds : drawState) : Prop :=
  stroke_active ds = true ->
  EPS_SetColor (strokeColor ds) ∈ cs
  /\ EPS_Write (ToPS (stroke_outline path ds)) ∈ cs.



(** ** Vocabulary of the further properties *)

Section Calls.
Context {X : Externals}.

(** A call of the recording API of the canvas. *)
Inductive call : Type :=
  | CallSet (s : setter)
  | CallDrawPath (x y : float64) (path : Path)
  | CallDrawText (x y : float64) (text : Text).

Definition do_call (c : C) (k : call) : C :=
  match k with
  | CallSet s => call_setter c s
  | CallDrawPath x y path => DrawPath x y path c
  | CallDrawText x y text => DrawText x y text c
  end.

Definition do_calls (ks : list call) (c : C) : C := fold_left do_call ks c.

(** The number of layers a call records. *)
Definition recorded (k : call) : nat :=
  match k with
  | CallSet _ => 0
  | CallDrawPath _ _ path => if Empty path then 0 else 1
  | CallDrawText _ _ _ => 1
  end.

(** The fonts a layer refers to. *)
Definition layer_fonts (l : layer) : gset FontPtr :=
  match l with
  | pathLayer _ _ => ∅
  | textLayer text _ _ _ => dom (text_fonts text)
  end.


Definition is_pathLayer (l : layer) : bool :=
  match l with pathLayer _ _ => true | textLayer _ _ _ _ => false end.

(** The registered fonts are those of the recorded text layers. *)
Definition fonts_of_layers (c : C) : Prop :=
  dom (fonts c) = ⋃ (layer_fonts <$> layers c)
  /\ map_Forall (fun _ b => b = true) (fonts c).

(** The layers a call records on a canvas. *)
Definition new_layers (c : C) (k : call) : list layer :=
  match k with
  | CallSet _ => []
  | CallDrawPath x y path =>
      if Empty path then []
      else [pathLayer (Translate x y (Copy path)) (C_drawState c)]
  | CallDrawText x y text => [textLayer text x y 0]
  end.

(** A layer that shows: a text layer, or a path layer with an active
    fill or stroke. *)
Definition visible (l : layer) : bool :=
  match l with
  | pathLayer _ ds => fill_active ds || stroke_active ds
  | textLayer _ _ _ _ => true
  end.

(** The canvas with other layers. *)
Definition with_layers (ls : list layer) (c : C) : C :=
  mkC (w c) (h c) ls (fonts c) (C_drawState c).

(** The layer with the colour of an inactive stroke taken away. *)
Definition without_idle_stroke (l : layer) : layer :=
  match l with
  | pathLayer path ds =>
      pathLayer path (if stroke_active ds then ds
                      else set_strokeColor Transparent ds)
  | textLayer _ _ _ _ => l
  end.
End Calls.

(** Two setter calls for the same field of the draw state. *)
Definition same_field (s s' : setter) : bool :=
  match s, s' with
  | CallSetFillColor _, CallSetFillColor _
  | CallSetStrokeColor _, CallSetStrokeColor _
  | CallSetStrokeWidth _, CallSetStrokeWidth _
  | CallSetStrokeCapper _, CallSetStrokeCapper _
  | CallSetStrokeJoiner _, CallSetStrokeJoiner _
  | CallSetDashes _ _, CallSetDashes _ _ => true
  | _, _ => false
  end.

(** The draw state holds what the setter call asked for. *)
Definition holds (s : setter) (ds : drawState) : Prop :=
  match s with
  | CallSetFillColor x => fillColor ds = x
  | CallSetStrokeColor x => strokeColor ds = x
  | CallSetStrokeWidth x => strokeWidth ds = x
  | CallSetStrokeCapper x => strokeCapper ds = x
  | CallSetStrokeJoiner x => strokeJoiner ds = x
  | CallSetDashes o d => dashOffset ds = o /\ dashes ds = d
  end.

(** Layers and a text of the small instance, for the further properties. *)
Module Samples.
(** An opaque red fill and no stroke. *)
Definition red_fill : drawState :=
  Demo.style Demo.Red Transparent bevelJoiner.

(** A text of one path, in red, without fonts. *)
Definition red_square : @Text Demo.externals :=
  Demo.mkText [(Demo.square, Demo.Red)] ∅.

(** A canvas with the square drawn in the default state. *)
Definition one_square : @C Demo.externals :=
  DrawPath 0 0 Demo.square (New 100 50).
End Samples.

(** * Properties *)

Section Recording.
Context {X : Externals}.

Lemma layers_call_setter (c : C) s : layers (call_setter c s) = layers c.
Proof. destruct s; reflexivity. Qed.

Lemma layers_call_setters ss : forall c : C,
  layers (call_setters ss c) = layers c.
Proof.
  induction ss as [|s ss IH]; intros c; [reflexivity|].
  cbn. unfold call_setters in IH. rewrite IH. apply layers_call_setter.
Qed.

Lemma layers_DrawPath x y path (c : C) :
  layers (DrawPath x y path c)
  = layers c ++ (if Empty path then []
                 else [pathLayer (Translate x y (Copy path)) (C_drawState c)]).
Proof.
  unfold DrawPath. destruct (Empty path); cbn; [by rewrite app_nil_r|done].
Qed.

(** C4: drawing a path without segments leaves the canvas as it was; the
    layer stack does not grow. *)
Theorem DrawPath_empty x y path (c : C) :
  Empty path = true ->
  DrawPath x y path c = c
  /\ length (layers (DrawPath x y path c)) = length (layers c).
Proof.
  intros Hempty. unfold DrawPath. rewrite Hempty. cbn. done.
Qed.

(** C8: a layer stores the draw state of the moment of its draw call,
    and no later sequence of SetFillColor, SetStrokeColor,
    SetStrokeWidth, SetStrokeCapper, SetStrokeJoiner or SetDashes calls
    changes a layer that is already recorded. *)
Theorem setters_keep_layers x y path ss (c : C) :
  layers (call_setters ss (DrawPath x y path c))
  = layers c ++ (if Empty path then []
                 else [pathLayer (Translate x y (Copy path)) (C_drawState c)]).
Proof. rewrite layers_call_setters. apply layers_DrawPath. Qed.

Lemma register_fonts (fs : gmap FontPtr bool) (tf : gmap FontPtr bool) :
  map_fold (fun font (_ : bool) acc => <[font := true]> acc) fs tf
  = ((fun _ => true) <$> tf) ∪ fs.
Proof.
  apply (map_fold_weak_ind
           (fun r m => r = ((fun _ => true) <$> m) ∪ fs)).
  - by rewrite fmap_empty, (left_id_L ∅ (∪)).
  - intros i b m r _ ->. by rewrite fmap_insert, insert_union_l.
Qed.

Lemma fonts_DrawText x y text (c : C) :
  fonts (DrawText x y text c)
  = ((fun _ => true) <$> text_fonts text) ∪ fonts c.
Proof. apply register_fonts. Qed.

(** C10: DrawText appends exactly one text layer, whatever the text
    holds, and registers the fonts of the text in the font set of the
    canvas; registering the same fonts again changes nothing. *)
Theorem DrawText_records x y x' y' text (c : C) :
  layers (DrawText x y text c) = layers c ++ [textLayer text x y 0]
  /\ length (layers (DrawText x y text c)) = S (length (layers c))
  /\ dom (fonts (DrawText x y text c))
     = dom (text_fonts text) ∪ dom (fonts c)
  /\ fonts (DrawText x' y' text (DrawText x y text c))
     = fonts (DrawText x y text c)
  /\ size (fonts (DrawText x' y' text (DrawText x y text c)))
     = size (fonts (DrawText x y text c)).
Proof.
  assert (Hidem : fonts (DrawText x' y' text (DrawText x y text c))
                  = fonts (DrawText x y text c)).
  { rewrite !fonts_DrawText. by rewrite (assoc_L (∪)), (idemp_L (∪)). }
  split_and!.
  - reflexivity.
  - cbn. rewrite length_app. cbn. lia.
  - rewrite fonts_DrawText, dom_union_L, dom_fmap_L. done.
  - exact Hidem.
  - by rewrite Hidem.
Qed.

End Recording.

(** ** The writer monad *)

Section Writer.
Context {St : Type}.

Lemma panicked_bind_l {A B} (m : Wr St A) (k : A -> Wr St B) s :
  panicked (m s) = true -> panicked (bind m k s) = true.
Proof. unfold bind. by destruct (m s). Qed.

Lemma panicked_bind_r {A B} (m : Wr St A) (k : A -> Wr St B) s :
  (forall a s', panicked (k a s') = true) -> panicked (bind m k s) = true.
Proof. unfold bind. intros Hk. destruct (m s); [apply Hk|done]. Qed.

(** A loop panics as soon as one of its rounds panics from every
    state. *)
Lemma forEach_panics {Y} (body : Y -> Wr St unit) xs x :
  x ∈ xs ->
  (forall s, panicked (body x s) = true) ->
  forall s, panicked (forEach body xs s) = true.
Proof.
  intros Hin Hx. induction xs as [|y xs IH]; [by apply elem_of_nil in Hin|].
  intros s. cbn. unfold bind.
  apply elem_of_cons in Hin as [<-|Hin].
  - specialize (Hx s). by destruct (body x s).
  - destruct (body y s); [by apply IH|done].
Qed.

End Writer.

Lemma forEach_emit {E Y} (f : Y -> E) xs (s : list E) :
  forEach (fun x => emit (f x)) xs s = Ok tt (s ++ map f xs).
Proof.
  revert s. induction xs as [|x xs IH]; intros s; cbn.
  - by rewrite app_nil_r.
  - unfold bind, emit, modify. rewrite IH. by rewrite <- app_assoc.
Qed.

Ltac run :=
  unfold bind, emit, modify, when, ret, panic; cbn.

Section Emits.
Context {E : Type}.
Implicit Types (m : Wr (list E) unit) (l : list E).

Lemma emits_ret : emits (ret tt) (@nil E).
Proof. intros s. unfold ret. by rewrite app_nil_r. Qed.

Lemma emits_emit (e : E) : emits (emit e) [e].
Proof. by intros s. Qed.

Lemma emits_bind m1 m2 l1 l2 :
  emits m1 l1 -> emits m2 l2 -> emits (m1 ;; m2) (l1 ++ l2).
Proof.
  intros H1 H2 s. unfold bind. rewrite H1, H2. by rewrite app_assoc.
Qed.

Lemma emits_forEach {Y} (f : Y -> E) (xs : list Y) :
  emits (forEach (fun x => emit (f x)) xs) (map f xs).
Proof. intros s. apply forEach_emit. Qed.

End Emits.

(** ** SVG *)

Section SVG.
Context {X : Externals}.
Variable FillRule : fillRule.

Lemma svg_emits_app format cs1 cs2 :
  svg_emits format (cs1 ++ cs2)
  = svg_emits format cs1 || svg_emits format cs2.
Proof. apply existsb_app. Qed.

Lemma svg_emits_dash_values format (ds : list float64) :
  String.eqb " %g" format = false ->
  svg_emits format (map (fun dash => SVG_Fprintf " %g" [AFloat dash]) ds)
  = false.
Proof.
  intros Hne. unfold svg_emits.
  induction ds as [|d ds IH]; [done|].
  cbn [map existsb]. by rewrite Hne, IH.
Qed.

Lemma pathLayer_WriteSVG_panics path (ds : drawState) h s :
  stroke_active ds = true ->
  capper_known (strokeCapper ds) && joiner_known (strokeJoiner ds) = false ->
  exists msg s',
    pathLayer_WriteSVG FillRule path ds h s = Panic msg s'
    /\ (msg = "SVG: line cap not support"
        \/ msg = "SVG: line join not support").
Proof.
  unfold stroke_active, pathLayer_WriteSVG. intros -> Hunknown.
  destruct (strokeCapper ds), (strokeJoiner ds) as [| | | ? limit ?|];
    try discriminate Hunknown;
    destruct (f64.neq (strokeWidth ds) 1); run; eauto.
Qed.

(** C5: in the SVG backend a layer with an active stroke whose capper
    is none of butt, round, square, or whose joiner is none of miter,
    round, bevel, arcs, panics, and with it the export of the canvas. *)
Theorem WriteSVG_unknown_style_panics (c : C) path ds out :
  pathLayer path ds ∈ layers c ->
  stroke_active ds = true ->
  capper_known (strokeCapper ds) && joiner_known (strokeJoiner ds) = false ->
  (forall s, exists msg s',
      pathLayer_WriteSVG FillRule path ds (h c) s = Panic msg s'
      /\ (msg = "SVG: line cap not support"
          \/ msg = "SVG: line join not support"))
  /\ panicked (C_WriteSVG FillRule c out) = true.
Proof.
  intros Hin Hstroke Hunknown.
  assert (Hlayer : forall s, exists msg s',
             pathLayer_WriteSVG FillRule path ds (h c) s = Panic msg s'
             /\ (msg = "SVG: line cap not support"
                 \/ msg = "SVG: line join not support")).
  { intros s. by apply pathLayer_WriteSVG_panics. }
  split; [exact Hlayer|].
  unfold C_WriteSVG.
  apply panicked_bind_r; intros _ s1.
  apply panicked_bind_r; intros _ s2.
  apply panicked_bind_l.
  apply (forEach_panics _ _ (pathLayer path ds)); [done|].
  intros s. unfold layer_WriteSVG.
  destruct (Hlayer s) as (msg & s' & -> & _). done.
Qed.

Lemma says_ret format : says format (ret tt) false.
Proof. exists []. split; [apply emits_ret|done]. Qed.

Lemma says_emit format e b :
  svg_emits format [e] = b -> says format (emit e) b.
Proof. intros <-. exists [e]. split; [apply emits_emit|done]. Qed.

Lemma says_bind format m1 m2 b1 b2 :
  says format m1 b1 -> says format m2 b2 ->
  says format (m1 ;; m2) (b1 || b2).
Proof.
  intros (l1 & H1 & <-) (l2 & H2 & <-). exists (l1 ++ l2).
  split; [by apply emits_bind|apply svg_emits_app].
Qed.

Lemma says_if format (c : bool) m1 m2 b1 b2 :
  says format m1 b1 -> says format m2 b2 ->
  says format (if c then m1 else m2) (if c then b1 else b2).
Proof. by destruct c. Qed.

Lemma says_when format (c : bool) m b :
  says format m b -> says format (when c m) (c && b).
Proof. intros Hm. destruct c; [done|apply says_ret]. Qed.

Lemma says_dash_values format (ds : list float64) :
  String.eqb " %g" format = false ->
  says format
    (forEach (fun dash => emit (SVG_Fprintf " %g" [AFloat dash])) ds) false.
Proof.
  intros Hne. eexists. split; [apply emits_forEach|].
  by apply svg_emits_dash_values.
Qed.

Lemma says_calls format m b :
  says format m b ->
  panicked (m []) = false /\ svg_emits format (final (m [])) = b.
Proof. intros (l & Hl & <-). by rewrite (Hl []). Qed.

Ltac says_step :=
  lazymatch goal with
  | |- says _ (bind _ _) _ => apply says_bind
  | |- says _ (ret _) _ => apply says_ret
  | |- says _ (when _ _) _ => apply says_when
  | |- says _ (forEach _ _) _ => apply says_dash_values; reflexivity
  | |- says _ (emit _) _ => apply says_emit; vm_compute; reflexivity
  | |- says _ (if _ then _ else _) _ => apply says_if
  end.

Lemma if_same {A} (b : bool) (x : A) : (if b then x else x) = x.
Proof. by destruct b. Qed.

(** C9: for a layer with an active stroke, written with a capper and a
    joiner of the package, the dash-array attribute is emitted exactly
    when the dash pattern is not empty, and the dash-offset attribute
    exactly when moreover the offset is strictly positive. *)
Theorem WriteSVG_dash_attributes path (ds : drawState) h :
  stroke_active ds = true ->
  capper_known (strokeCapper ds) = true ->
  joiner_known (strokeJoiner ds) = true ->
  let r := pathLayer_WriteSVG FillRule path ds h [] in
  panicked r = false
  /\ (svg_emits ";stroke-dasharray:%g" (final r) = true <-> dashes ds <> [])
  /\ (svg_emits ";stroke-dashoffset:%g" (final r) = true
      <-> dashes ds <> [] /\ f64.lt 0 (dashOffset ds) = true).
Proof.
  unfold stroke_active, pathLayer_WriteSVG. intros -> Hcap Hjoin.
  destruct (strokeCapper ds); try discriminate Hcap;
  destruct (strokeJoiner ds) as [| | | ? limit ?|]; try discriminate Hjoin;
  destruct (dashes ds) as [|dash0 rest];
  cbv beta iota zeta.
  all: match goal with |- context [final (?m [])] =>
    let H1 := fresh in let H2 := fresh in
    eassert (says ";stroke-dasharray:%g" m _) as H1
      by (repeat says_step);
    eassert (says ";stroke-dashoffset:%g" m _) as H2
      by (repeat says_step);
    destruct (says_calls _ _ _ H1) as [-> ->];
    destruct (says_calls _ _ _ H2) as [_ ->]; clear H1 H2
  end.
  all: repeat first [ rewrite if_same | rewrite andb_false_r
                    | rewrite andb_true_r | rewrite orb_false_r
                    | progress cbn [orb andb] ].
  all: split_and!; [done|intuition congruence..].
Qed.

End SVG.

(** ** PDF *)

Section PDF.
Context {X : Externals}.
Variable FillRule : fillRule.

(** The test of the backend is the rule in words. *)
Lemma strokeUnsupported_spec j : strokeUnsupported j = pdf_unsupported j.
Proof.
  destruct j as [| | | gap limit length|]; try reflexivity.
  cbn. destruct (f64.IsNaN length); [done|]. by destruct gap.
Qed.

Lemma dashed_copy path (ds : drawState) :
  Stroke (strokeWidth ds) (strokeCapper ds) (strokeJoiner ds)
    (if (0 <? length (dashes ds))%nat
     then Dash (dashOffset ds) (dashes ds) (Copy path) else Copy path)
  = stroke_outline path ds.
Proof. unfold stroke_outline. by destruct (dashes ds). Qed.

Ltac pdf_cases ds path :=
  unfold pathLayer_WritePDF, calls, differentAlpha, fill_active,
    stroke_active, star;
  rewrite ?strokeUnsupported_spec, ?dashed_copy;
  destruct (bool_decide (color.A (fillColor ds) <> 0));
  destruct (bool_decide (color.A (strokeColor ds) <> 0));
  destruct (f64.lt 0 (strokeWidth ds));
  destruct (bool_decide (color.A (fillColor ds) <> color.A (strokeColor ds)));
  destruct (pdf_unsupported (strokeJoiner ds));
  destruct (ends_in_h (ToPDF path));
  destruct (bool_decide (FillRule = EvenOdd)) eqn:HFillRule;
  cbn.

(** C1, as the code has it: a layer with an active fill or stroke is
    written as one path with native operators exactly when its joiner
    is supported and the alphas of an active fill and stroke agree,
    where the unsupported joiners are the arcs joiner, the miter joiner
    without bound (NaN) and the miter joiner whose gap joiner is not
    bevel.  With an unsupported joiner no stroke setting reaches the
    page writer and the layer is two fill passes, in the fill colour
    and in the stroke colour; with a supported joiner an active stroke
    is always stroked by the page writer. *)
Theorem WritePDF_native_rule path (ds : drawState) :
  fill_active ds || stroke_active ds = true ->
  let cs := calls (pathLayer_WritePDF FillRule path ds) in
  single_paint cs
  = negb (pdf_unsupported (strokeJoiner ds) || differentAlpha ds)
  /\ (pdf_unsupported (strokeJoiner ds) = true ->
      native_stroke cs = false
      /\ fill_colors cs = [fillColor ds; strokeColor ds])
  /\ (pdf_unsupported (strokeJoiner ds) = false ->
      native_stroke cs = stroke_active ds).
Proof.
  pdf_cases ds path; intros Hactive; try discriminate Hactive;
    split_and!; intros; try discriminate; done.
Qed.

(** C2, as the code has it: with an unsupported joiner the layer is two
    filled paths, the path in the fill colour and the outline of the
    stroking kernel in the stroke colour, and no stroke setting is
    forwarded; with a supported joiner and differing alphas the fill is
    a filled path and the stroke is a separate native stroke of the
    same path, with colour, width, cap, join and dashes forwarded. *)
Theorem WritePDF_fallback path (ds : drawState) :
  fill_active ds || stroke_active ds = true ->
  let data := ToPDF path in
  let data' := if ends_in_h data
               then String.substring 0 (String.length data - 2) data
               else data in
  let star := if bool_decide (FillRule = EvenOdd)
              then [PDF_Write "*"] else [] in
  let fill_pass := [PDF_SetFillColor (fillColor ds); PDF_Write " ";
                    PDF_Write data'; PDF_Write " f"] ++ star in
  let cs := calls (pathLayer_WritePDF FillRule path ds) in
  (pdf_unsupported (strokeJoiner ds) = true ->
     cs = fill_pass
          ++ [PDF_SetFillColor (strokeColor ds); PDF_Write " ";
              PDF_Write (ToPDF (stroke_outline path ds)); PDF_Write " f"]
          ++ star
     /\ native_stroke cs = false)
  /\ (pdf_unsupported (strokeJoiner ds) = false ->
      differentAlpha ds = true ->
      exists tail,
        cs = fill_pass
             ++ [PDF_SetStrokeColor (strokeColor ds);
                 PDF_SetLineWidth (strokeWidth ds);
                 PDF_SetLineCap (strokeCapper ds);
                 PDF_SetLineJoin (strokeJoiner ds);
                 PDF_SetDashes (dashOffset ds) (dashes ds);
                 PDF_Write " "; PDF_Write data';
                 PDF_Write (if ends_in_h data then " s" else " S")]
             ++ tail
        /\ (FillRule = NonZero -> tail = [])).
Proof.
  pdf_cases ds path; intros Hactive; try discriminate Hactive.
  all: split; [intros; try discriminate; try done|].
  all: try (intros; try discriminate;
  eexists; (split; [reflexivity|]); try done; intros ->; done).
Qed.

Lemma ends_in_h_cons a s : ends_in_h s = true -> ends_in_h (String a s) = true.
Proof.
  unfold ends_in_h. intros [Hlen Hget%bool_decide_eq_true]%andb_true_iff.
  apply Nat.ltb_lt in Hlen. apply andb_true_iff. split.
  - apply Nat.ltb_lt. cbn. lia.
  - apply bool_decide_eq_true.
    replace (String.length (String a s) - 1)%nat
      with (S (String.length s - 1)) by (cbn; lia).
    exact Hget.
Qed.

Lemma ends_in_h_suffix p : ends_in_h (p +:+ " h") = true.
Proof.
  induction p as [|a p IH]; [reflexivity|]. by apply ends_in_h_cons.
Qed.

Lemma last_byte_h s :
  s <> EmptyString ->
  String.get (String.length s - 1) s = Some "h"%char ->
  exists p, s = p +:+ "h".
Proof.
  induction s as [|a s IH]; [done|]. intros _ Hget.
  destruct s as [|b s].
  - cbn in Hget. injection Hget as ->. by exists EmptyString.
  - destruct IH as [p Hp]; [done| |].
    + replace (String.length (String a (String b s)) - 1)%nat
        with (S (String.length (String b s) - 1)) in Hget by (cbn; lia).
      exact Hget.
    + exists (String a p). rewrite Hp. reflexivity.
Qed.

Lemma ends_in_h_last s : ends_in_h s = true -> exists p, s = p +:+ "h".
Proof.
  unfold ends_in_h. intros [Hlen Hget%bool_decide_eq_true]%andb_true_iff.
  apply last_byte_h; [|done]. intros ->. done.
Qed.

Lemma paint_operator_WritePDF path (ds : drawState) :
  fill_active ds || stroke_active ds = true ->
  paint_operator (calls (pathLayer_WritePDF FillRule path ds))
  = Some (if stroke_active ds && negb (pdf_unsupported (strokeJoiner ds))
          then if fill_active ds && negb (differentAlpha ds)
               then if ends_in_h (ToPDF path) then " b" else " B"
               else if ends_in_h (ToPDF path) then " s" else " S"
          else " f").
Proof.
  pdf_cases ds path; intros Hactive; try discriminate Hactive; reflexivity.
Qed.

(** C7: where the PDF backend strokes natively, the paint operator is
    the closing variant ([s], or [b] with a fill of the same alpha) when
    the path data ends in the close token, and the open variant ([S],
    [B]) when the data does not end in [h]. *)
Theorem WritePDF_close_variant path (ds : drawState) :
  stroke_active ds = true ->
  pdf_unsupported (strokeJoiner ds) = false ->
  let data := ToPDF path in
  let cs := calls (pathLayer_WritePDF FillRule path ds) in
  let both := fill_active ds && negb (differentAlpha ds) in
  ((exists p, data = p +:+ " h") ->
     paint_operator cs = Some (if both then " b" else " s"))
  /\ ((forall p, data <> p +:+ "h") ->
      paint_operator cs = Some (if both then " B" else " S")).
Proof.
  intros Hstroke Hsupported data cs both. subst cs.
  rewrite paint_operator_WritePDF by (rewrite Hstroke; apply orb_true_r).
  rewrite Hstroke, Hsupported. cbn [andb negb]. fold both. split.
  - intros [p Hp]. fold data. rewrite Hp, ends_in_h_suffix. done.
  - intros Hopen. destruct (ends_in_h (ToPDF path)) eqn:Hclosed; [|done].
    apply ends_in_h_last in Hclosed as [p Hp]. by destruct (Hopen p).
Qed.
End PDF.

(** ** EPS *)

Section EPS.
Context {X : Externals}.

Lemma pathLayer_WriteEPS_calls path (ds : drawState) s :
  pathLayer_WriteEPS path ds s
  = Ok tt (s ++ [EPS_SetColor (fillColor ds); EPS_Write " ";
                 EPS_Write (ToPS path); EPS_Write " fill"]).
Proof. unfold pathLayer_WriteEPS. run. by rewrite <- !app_assoc. Qed.

(** C3, as the code has it: the EPS backend writes a path layer as one
    filled path in the fill colour, whatever the stroke settings of the
    layer are, and it never panics; no stroke outline is produced.  A
    canvas of path layers is exported as a line feed and such a filled
    path per layer. *)
Theorem WriteEPS_fill_only path (ds : drawState) s
    (pls : list (Path * drawState)) w h fs st :
  pathLayer_WriteEPS path ds s
  = Ok tt (s ++ [EPS_SetColor (fillColor ds); EPS_Write " ";
                 EPS_Write (ToPS path); EPS_Write " fill"])
  /\ C_WriteEPS (mkC w h (map (fun pl => pathLayer pl.1 pl.2) pls) fs st) s
     = Ok tt (s ++ concat
                     (map (fun pl => [EPS_Write nl;
                                      EPS_SetColor (fillColor pl.2);
                                      EPS_Write " "; EPS_Write (ToPS pl.1);
                                      EPS_Write " fill"]) pls)).
Proof.
  split; [apply pathLayer_WriteEPS_calls|].
  unfold C_WriteEPS. cbn [layers]. revert s.
  induction pls as [|[p d] pls IH]; intros s; cbn [map concat forEach].
  - unfold ret. by rewrite app_nil_r.
  - unfold bind at 1. unfold bind at 1. cbn [emit modify layer_WriteEPS].
    rewrite pathLayer_WriteEPS_calls, IH. cbn. by rewrite <- !app_assoc.
Qed.
End EPS.

(** ** Raster *)

Section Raster.
Context {X : Externals}.







Lemma pathLayer_WriteImage_returns path ds dpm w h img :
  panicked (pathLayer_WriteImage path ds dpm w h img) = false.
Proof.
  unfold pathLayer_WriteImage, raster_pass.
  destruct (bool_decide (color.A (fillColor ds) ≠ 0));
    destruct (bool_decide (color.A (strokeColor ds) ≠ 0)
              && f64.lt 0 (strokeWidth ds)); done.
Qed.

Lemma text_loop_returns {St} (body : Path -> color.RGBA -> Wr St unit)
    (colors : list color.RGBA) paths :
  (forall path color s, panicked (body path color s) = false) ->
  forall i s,
    (i + length paths <= length colors)%nat ->
    panicked (forEachIdx (fun i path => color <- index colors i ;;
                                        body path color) i paths s) = false.
Proof.
  intros Hbody. induction paths as [|path paths IH]; intros i s Hlen; [done|].
  cbn in *. unfold bind at 1.
  destruct (lookup_lt_is_Some_2 colors i) as [color Hcolor]; [lia|].
  unfold bind, index. rewrite Hcolor. unfold ret.
  specialize (Hbody path color s).
  destruct (body path color s) as [[] s'|]; [|done].
  apply IH. lia.
Qed.



End Raster.

(** * Further properties *)

(** ** Recording *)

Section RecordingCalls.
Context {X : Externals}.

Lemma do_calls_cons k ks (c : C) :
  do_calls (k :: ks) c = do_calls ks (do_call c k).
Proof. reflexivity. Qed.

Lemma do_call_layers (c : C) k :
  exists new, layers (do_call c k) = layers c ++ new
              /\ length new = recorded k.
Proof.
  destruct k as [s|x y path|x y text]; cbn.
  - exists []. by rewrite layers_call_setter, app_nil_r.
  - rewrite layers_DrawPath. eexists. split; [done|]. by destruct (Empty path).
  - by eexists.
Qed.

Lemma do_call_size (c : C) k : w (do_call c k) = w c /\ h (do_call c k) = h c.
Proof.
  destruct k as [s|x y path|x y text]; cbn.
  - by destruct s.
  - unfold DrawPath. by destruct (Empty path).
  - done.
Qed.

(** X1: whatever is called on a canvas, the layers it holds stay where
    they are, as the first layers of the stack, and its width and height
    stay as they are. *)
Theorem calls_append_only ks : forall c : C,
  layers c `prefix_of` layers (do_calls ks c)
  /\ w (do_calls ks c) = w c
  /\ h (do_calls ks c) = h c.
Proof.
  induction ks as [|k ks IH]; intros c; [done|].
  rewrite do_calls_cons. destruct (IH (do_call c k)) as (Hpre & -> & ->).
  destruct (do_call_size c k) as [-> ->].
  split; [|done]. etrans; [|exact Hpre].
  destruct (do_call_layers c k) as (new & -> & _). by apply prefix_app_r.
Qed.

(** X2: the stack grows by one layer for each DrawText and for each
    DrawPath of a path that is not empty, and by nothing else. *)
Theorem calls_layer_count ks : forall c : C,
  length (layers (do_calls ks c))
  = (length (layers c) + sum_list (recorded <$> ks))%nat.
Proof.
  induction ks as [|k ks IH]; intros c; [cbn; lia|].
  rewrite do_calls_cons, IH, fmap_cons.
  destruct (do_call_layers c k) as (new & -> & <-).
  rewrite length_app. simpl. lia.
Qed.

Lemma fonts_of_layers_call (c : C) k :
  fonts_of_layers c -> fonts_of_layers (do_call c k).
Proof.
  intros [Hdom Htrue]. destruct k as [s|x y path|x y text]; cbn.
  - destruct s; by split.
  - unfold DrawPath. destruct (Empty path); [by split|].
    split; [|done]. cbn. rewrite fmap_app, union_list_app_L. cbn.
    by rewrite Hdom, !(right_id_L ∅ (∪)).
  - split.
    + rewrite fonts_DrawText, dom_union_L, dom_fmap_L. cbn.
      rewrite fmap_app, union_list_app_L. cbn.
      by rewrite Hdom, !(right_id_L ∅ (∪)), (comm_L (∪)).
    + rewrite fonts_DrawText. intros f b [Hf|[_ Hf]]%lookup_union_Some_raw.
      * rewrite lookup_fmap in Hf. by destruct (text_fonts text !! f); inv Hf.
      * by apply Htrue in Hf.
Qed.

(** X3: on a canvas made by New and any calls, the registered fonts are
    exactly the fonts of the recorded text layers, and each is registered
    with the value true. *)
Theorem fonts_are_those_of_text_layers ks w h :
  dom (fonts (do_calls ks (New w h)))
  = ⋃ (layer_fonts <$> layers (do_calls ks (New w h)))
  /\ map_Forall (fun _ b => b = true) (fonts (do_calls ks (New w h))).
Proof.
  change (fonts_of_layers (do_calls ks (New w h))).
  assert (Hnew : fonts_of_layers (New w h)).
  { split; [done|]. apply map_Forall_empty. }
  revert Hnew. generalize (New w h).
  induction ks as [|k ks IH]; intros c Hc; [done|].
  rewrite do_calls_cons. by apply IH, fonts_of_layers_call.
Qed.

Lemma holds_call_setter s s' (c : C) :
  same_field s s' = false ->
  holds s (C_drawState c) -> holds s (C_drawState (call_setter c s')).
Proof. by destruct s, s'. Qed.

Lemma holds_after s (c : C) : holds s (C_drawState (call_setter c s)).
Proof. by destruct s. Qed.

(** X4: what a setter sets stays set until the same setter is called
    again: the setters of the other fields leave it alone, and a path
    drawn afterwards is recorded with it. *)
Theorem setter_persists s ss x y path (c : C) :
  forallb (fun s' => negb (same_field s s')) ss = true ->
  Empty path = false ->
  exists p,
    last (layers (DrawPath x y path (call_setters (s :: ss) c)))
    = Some (pathLayer p (C_drawState (call_setters (s :: ss) c)))
    /\ holds s (C_drawState (call_setters (s :: ss) c)).
Proof.
  intros Hother Hpath. eexists. split.
  - rewrite layers_DrawPath, Hpath. by rewrite last_snoc.
  - cbn. generalize (holds_after s c). generalize (call_setter c s).
    induction ss as [|s' ss IH]; intros c' Hc'; [done|].
    cbn in Hother. apply andb_true_iff in Hother as [Hs' Hother].
    cbn. apply IH; [done|]. apply holds_call_setter; [|done].
    by destruct (same_field s s').
Qed.

End RecordingCalls.

(** ** The writer monad, continued *)

Section EmitsMore.
Context {E : Type}.
Implicit Types (m : Wr (list E) unit) (l : list E).




(** A loop of rounds that return appends the calls of its rounds. *)
Lemma emits_forEach_calls {Y} (body : Y -> Wr (list E) unit) xs :
  (forall x, x ∈ xs -> emits (body x) (calls (body x))) ->
  emits (forEach body xs) (concat (map (fun x => calls (body x)) xs)).
Proof.
  induction xs as [|x xs IH]; intros Hbody; [apply emits_ret|].
  cbn [forEach map concat]. apply emits_bind.
  - apply Hbody, elem_of_cons. by left.
  - apply IH. intros y Hy. apply Hbody, elem_of_cons. by right.
Qed.
End EmitsMore.

Lemma forEach_app {St Y} (body : Y -> Wr St unit) xs ys s :
  forEach body (xs ++ ys) s = (forEach body xs ;; forEach body ys) s.
Proof.
  revert s. induction xs as [|x xs IH]; intros s; [reflexivity|].
  cbn [app forEach]. unfold bind.
  destruct (body x s) as [[] s'|]; [|reflexivity].
  rewrite IH. reflexivity.
Qed.

(** ** SVG, continued *)

Section SVGAttributes.
Context {X : Externals}.
Variable FillRule : fillRule.

Ltac attr_step :=
  lazymatch goal with
  | |- says _ (bind _ _) _ => apply says_bind
  | |- says _ (ret _) _ => apply says_ret
  | |- says _ (when _ _) _ => apply says_when
  | |- says _ (forEach _ _) _ => apply says_dash_values; reflexivity
  | |- says _ (emit _) _ => apply says_emit; vm_compute; reflexivity
  | |- says _ (if _ then _ else _) _ => apply says_if
  end.

(** The attribute of [format] is among the calls of the layer exactly
    when [b] holds. *)
Ltac attr format :=
  match goal with |- context [final (?m [])] =>
    let H := fresh in
    eassert (says format m _) as H by (repeat attr_step);
    destruct (says_calls _ _ _ H) as [_ ->]; clear H
  end.

Ltac bool_cases :=
  repeat (cbn [orb andb negb];
          match goal with
          | |- context [if ?b then _ else _] => destruct b
          | |- context [andb ?b _] => destruct b
          | |- context [orb ?b _] => destruct b
          | |- context [negb ?b] => destruct b
          end);
  cbn [orb andb negb].

Ltac stroked ds :=
  unfold stroke_active, pathLayer_WriteSVG; intros -> Hcap Hjoin;
  destruct (strokeCapper ds); try discriminate Hcap;
  destruct (strokeJoiner ds) as [| | | ? limit ?|]; try discriminate Hjoin;
  destruct (dashes ds) as [|dash0 rest];
  cbv beta iota zeta.

(** X5: a layer whose stroke is inactive is written as one path element
    without any stroke attribute and without a fill rule, whatever its
    capper and joiner are: the flipped path, and the fill unless it is
    the default black.  It never panics. *)
Theorem WriteSVG_idle_stroke path (ds : drawState) h s :
  stroke_active ds = false ->
  pathLayer_WriteSVG FillRule path ds h s
  = Ok tt (s ++ [SVG_Write ("<path d=" +:+ dq);
                 SVG_Write (ToSVG (Translate 0 h (Scale 1 (-1) (Copy path))))]
             ++ (if bool_decide (fillColor ds ≠ Black)
                 then if bool_decide (color.A (fillColor ds) ≠ 0)
                      then [SVG_Fprintf (dq +:+ " fill=" +:+ dq +:+ "%s")
                              [AString (toCSSColor (fillColor ds))]]
                      else [SVG_Fprintf (dq +:+ " fill=" +:+ dq +:+ "none") []]
                 else [])
             ++ [SVG_Write (dq +:+ "/>")]).
Proof.
  unfold stroke_active, pathLayer_WriteSVG. intros ->.
  destruct (bool_decide (fillColor ds ≠ Black));
    destruct (bool_decide (color.A (fillColor ds) ≠ 0));
    run; by rewrite <- ?app_assoc.
Qed.

(** X6: with an active stroke, the stroke width is written exactly when
    it is not 1, the round and the square capper are written as the line
    caps of their names, and the butt capper is not written. *)
Theorem WriteSVG_width_and_cap path (ds : drawState) h :
  stroke_active ds = true ->
  capper_known (strokeCapper ds) = true ->
  joiner_known (strokeJoiner ds) = true ->
  let cs := final (pathLayer_WriteSVG FillRule path ds h []) in
  svg_emits ";stroke-width:%g" cs = f64.neq (strokeWidth ds) 1
  /\ svg_emits ";stroke-linecap:round" cs
     = match strokeCapper ds with roundCapper => true | _ => false end
  /\ svg_emits ";stroke-linecap:square" cs
     = match strokeCapper ds with squareCapper => true | _ => false end.
Proof.
  stroked ds; split_and!.
  all: first [ attr ";stroke-width:%g" | attr ";stroke-linecap:round"
             | attr ";stroke-linecap:square" ].
  all: bool_cases; reflexivity.
Qed.

(** X7: with an active stroke, the bevel, round and arcs joiners are
    written as the line joins of their names; a miter joiner is written,
    as miter-clip, exactly when its limit is not NaN, and its limit is
    written exactly when moreover it is not 4. *)
Theorem WriteSVG_join path (ds : drawState) h :
  stroke_active ds = true ->
  capper_known (strokeCapper ds) = true ->
  joiner_known (strokeJoiner ds) = true ->
  let cs := final (pathLayer_WriteSVG FillRule path ds h []) in
  svg_emits ";stroke-linejoin:bevel" cs
  = match strokeJoiner ds with bevelJoiner => true | _ => false end
  /\ svg_emits ";stroke-linejoin:round" cs
     = match strokeJoiner ds with roundJoiner => true | _ => false end
  /\ svg_emits ";stroke-linejoin:arcs" cs
     = match strokeJoiner ds with arcsJoiner _ _ => true | _ => false end
  /\ svg_emits ";stroke-linejoin:miter-clip" cs
     = match strokeJoiner ds with
       | miterJoiner _ limit _ => negb (f64.IsNaN limit)
       | _ => false
       end
  /\ svg_emits ";stroke-miterlimit:%g" cs
     = match strokeJoiner ds with
       | miterJoiner _ limit _ => negb (f64.IsNaN limit) && f64.neq limit 4
       | _ => false
       end.
Proof.
  stroked ds; split_and!.
  all: first [ attr ";stroke-linejoin:bevel" | attr ";stroke-linejoin:round"
             | attr ";stroke-linejoin:arcs"
             | attr ";stroke-linejoin:miter-clip"
             | attr ";stroke-miterlimit:%g" ].
  all: bool_cases; reflexivity.
Qed.

(** X8: with an active stroke, the fill is written unless it is the
    default black, as its colour when its alpha is not 0 and as none
    otherwise; the even-odd fill rule is written exactly when it is the
    rule of the package. *)
Theorem WriteSVG_fill path (ds : drawState) h :
  stroke_active ds = true ->
  capper_known (strokeCapper ds) = true ->
  joiner_known (strokeJoiner ds) = true ->
  let cs := final (pathLayer_WriteSVG FillRule path ds h []) in
  svg_emits ";fill:%s" cs
  = bool_decide (fillColor ds ≠ Black)
    && bool_decide (color.A (fillColor ds) ≠ 0)
  /\ svg_emits ";fill:none" cs
     = bool_decide (fillColor ds ≠ Black)
       && negb (bool_decide (color.A (fillColor ds) ≠ 0))
  /\ svg_emits ";fill-rule:evenodd" cs = bool_decide (FillRule = EvenOdd).
Proof.
  stroked ds; split_and!.
  all: first [ attr ";fill:%s" | attr ";fill:none"
             | attr ";fill-rule:evenodd" ].
  all: bool_cases; reflexivity.
Qed.


End SVGAttributes.

(** ** PDF, continued *)

Section PDFMore.
Context {X : Externals}.
Variable FillRule : fillRule.

Ltac pdf_branches ds path :=
  unfold pathLayer_WritePDF, differentAlpha, fill_active, stroke_active, star;
  rewrite ?strokeUnsupported_spec;
  destruct (bool_decide (color.A (fillColor ds) <> 0));
  destruct (bool_decide (color.A (strokeColor ds) <> 0));
  destruct (f64.lt 0 (strokeWidth ds));
  destruct (bool_decide (color.A (fillColor ds) <> color.A (strokeColor ds)));
  destruct (pdf_unsupported (strokeJoiner ds));
  destruct (ends_in_h (ToPDF path));
  destruct (bool_decide (FillRule = EvenOdd));
  cbn.

(** A path layer never panics in the PDF backend. *)
Lemma pathLayer_WritePDF_emits path (ds : drawState) :
  emits (pathLayer_WritePDF FillRule path ds)
        (calls (pathLayer_WritePDF FillRule path ds)).
Proof.
  unfold emits, calls. pdf_branches ds path; intros s; run;
    rewrite <- ?app_assoc, ?app_nil_r; reflexivity.
Qed.

(** X11: with a supported joiner and no difference of alphas, the layer
    is one path: the fill colour is set only for an active fill, the
    stroke settings are forwarded only for an active stroke, the path
    data is written whole, close token included, and one operator paints
    it, with the even-odd star only after a fill. *)
Theorem WritePDF_one_path path (ds : drawState) :
  fill_active ds || stroke_active ds = true ->
  pdf_unsupported (strokeJoiner ds) = false ->
  differentAlpha ds = false ->
  calls (pathLayer_WritePDF FillRule path ds)
  = (if fill_active ds then [PDF_SetFillColor (fillColor ds)] else [])
    ++ (if stroke_active ds
        then [PDF_SetStrokeColor (strokeColor ds);
              PDF_SetLineWidth (strokeWidth ds);
              PDF_SetLineCap (strokeCapper ds);
              PDF_SetLineJoin (strokeJoiner ds);
              PDF_SetDashes (dashOffset ds) (dashes ds)]
        else [])
    ++ [PDF_Write " "; PDF_Write (ToPDF path);
        PDF_Write
          (match fill_active ds, stroke_active ds, ends_in_h (ToPDF path) with
           | true, true, true => " b"
           | true, true, false => " B"
           | true, false, _ => " f"
           | false, _, true => " s"
           | false, _, false => " S"
           end)]
    ++ (if fill_active ds && bool_decide (FillRule = EvenOdd)
        then [PDF_Write "*"] else []).
Proof.
  unfold calls. pdf_branches ds path; intros; try discriminate; reflexivity.
Qed.

Lemma substring_prefix p s : String.substring 0 (String.length p) (p +:+ s) = p.
Proof.
  induction p as [|a p IH]; simpl; [by destruct s|]. by rewrite IH.
Qed.

Lemma length_append p s :
  String.length (p +:+ s) = (String.length p + String.length s)%nat.
Proof. induction p as [|a p IH]; simpl; [done|]. by rewrite IH. Qed.

(** X12: in the two-pass branch the path data of the fill pass is the
    serialised path without its final close token. *)
Theorem WritePDF_two_pass_strips_close path (ds : drawState) p :
  fill_active ds || stroke_active ds = true ->
  pdf_unsupported (strokeJoiner ds) || differentAlpha ds = true ->
  ToPDF path = p +:+ " h" ->
  exists rest,
    calls (pathLayer_WritePDF FillRule path ds)
    = [PDF_SetFillColor (fillColor ds); PDF_Write " "; PDF_Write p;
       PDF_Write " f"] ++ rest.
Proof.
  intros Hactive Htwo Hdata.
  assert (Hclosed : ends_in_h (ToPDF path) = true)
    by (rewrite Hdata; apply ends_in_h_suffix).
  assert (Hp : String.substring 0 (String.length (ToPDF path) - 2) (ToPDF path)
               = p).
  { rewrite Hdata, length_append. cbn [String.length].
    replace (String.length p + 2 - 2)%nat with (String.length p) by lia.
    apply substring_prefix. }
  revert Hactive Htwo. unfold calls.
  unfold pathLayer_WritePDF, differentAlpha, fill_active, stroke_active, star.
  rewrite ?strokeUnsupported_spec, Hclosed, Hp.
  destruct (bool_decide (color.A (fillColor ds) <> 0));
  destruct (bool_decide (color.A (strokeColor ds) <> 0));
  destruct (f64.lt 0 (strokeWidth ds));
  destruct (bool_decide (color.A (fillColor ds) <> color.A (strokeColor ds)));
  destruct (pdf_unsupported (strokeJoiner ds));
  destruct (bool_decide (FillRule = EvenOdd));
  cbn; intros; try discriminate; eexists; reflexivity.
Qed.

(** X13: a canvas of path layers is exported to PDF without panic, as
    the calls of its layers in the order of the stack. *)
Theorem WritePDF_export (c : C) s :
  forallb is_pathLayer (layers c) = true ->
  C_WritePDF FillRule c s
  = Ok tt (s ++ concat (map (fun l => calls (layer_WritePDF FillRule l))
                            (layers c))).
Proof.
  intros Hlayers. unfold C_WritePDF.
  apply (emits_forEach_calls (layer_WritePDF FillRule)). intros l Hl.
  assert (Hpath : is_pathLayer l = true).
  { apply (proj1 (forallb_forall _ _) Hlayers), list_elem_of_In, Hl. }
  destruct l as [path ds|]; [|discriminate Hpath].
  apply pathLayer_WritePDF_emits.
Qed.
End PDFMore.

(** ** Loops *)

Section Loops.
Context {St : Type}.

Lemma bind_ret_r (m : Wr St unit) s : (m ;; ret tt) s = m s.
Proof. unfold bind. by destruct (m s) as [[] s'|]. Qed.

Lemma forEach_fmap_ext {Y Z} (f : Y -> Wr St unit) (g : Z -> Wr St unit)
    (h : Y -> Z) xs :
  (forall x s, g (h x) s = f x s) ->
  forall s, forEach g (h <$> xs) s = forEach f xs s.
Proof.
  intros Hgf. induction xs as [|x xs IH]; intros s; [done|].
  rewrite fmap_cons. cbn [forEach]. unfold bind. rewrite Hgf.
  destruct (f x s) as [[] s'|]; [apply IH|done].
Qed.

Lemma forEach_filter {Y} (f : Y -> Wr St unit) (keep : Y -> bool) xs :
  (forall x s, keep x = false -> f x s = Ok tt s) ->
  forall s, forEach f (List.filter keep xs) s = forEach f xs s.
Proof.
  intros Hskip. induction xs as [|x xs IH]; intros s; [done|].
  cbn [List.filter forEach]. destruct (keep x) eqn:Hx.
  - cbn [forEach]. unfold bind. destruct (f x s) as [[] s'|]; [apply IH|done].
  - unfold bind. rewrite (Hskip x s Hx). apply IH.
Qed.

(** The loop over the paths of a text panics when the colours run out. *)
Lemma text_loop_panics {P K} (body : P -> K -> Wr St unit) (colors : list K)
    paths :
  forall i s,
    (i <= length colors < i + length paths)%nat ->
    panicked (forEachIdx (fun i path => color <- index colors i ;;
                                        body path color) i paths s) = true.
Proof.
  induction paths as [|path paths IH]; intros i s Hlen; [cbn in Hlen; lia|].
  cbn [forEachIdx]. unfold bind at 1. unfold bind at 1. unfold index.
  destruct (colors !! i) as [color|] eqn:Hcolor; [|done].
  unfold ret. destruct (body path color s) as [[] s'|]; [|done].
  apply IH. apply lookup_lt_Some in Hcolor. cbn in Hlen. lia.
Qed.

End Loops.

(** With colours enough, the loop over the paths of a text appends the
    calls made for each path and its colour. *)
Lemma text_loop_emits {E P K} (body : P -> K -> Wr (list E) unit)
    (f : P -> K -> list E) (colors : list K) paths :
  (forall path color, emits (body path color) (f path color)) ->
  forall i s,
    (i + length paths <= length colors)%nat ->
    forEachIdx (fun i path => color <- index colors i ;; body path color)
               i paths s
    = Ok tt (s ++ concat (zip_with f paths (drop i colors))).
Proof.
  intros Hbody. induction paths as [|path paths IH]; intros i s Hlen.
  - cbn. unfold ret. by rewrite app_nil_r.
  - cbn in Hlen. cbn [forEachIdx]. unfold bind at 1. unfold bind at 1.
    destruct (lookup_lt_is_Some_2 colors i) as [color Hcolor]; [lia|].
    unfold index. rewrite Hcolor. unfold ret.
    rewrite (drop_S _ _ _ Hcolor). cbn [zip_with concat].
    rewrite Hbody, IH by lia. by rewrite app_assoc.
Qed.

(** ** Layers and exports *)

Section Exports.
Context {X : Externals}.
Variable FillRule : fillRule.

Lemma layers_do_call (c : C) k :
  layers (do_call c k) = layers c ++ new_layers c k.
Proof.
  destruct k as [s|x y path|x y text]; cbn.
  - by rewrite layers_call_setter, app_nil_r.
  - apply layers_DrawPath.
  - done.
Qed.

Lemma background_do_call (c : C) k dpi :
  background (do_call c k) dpi = background c dpi.
Proof.
  unfold background. by destruct (do_call_size c k) as [-> ->].
Qed.

(** X14: an export made after one more call is the export made before,
    followed by the layers the call has recorded, written with the draw
    state of the moment of the call; a setter changes no export. *)
Theorem export_after_call (c : C) k s s' dpi :
  C_WritePDF FillRule (do_call c k) s
  = (C_WritePDF FillRule c ;;
     forEach (layer_WritePDF FillRule) (new_layers c k)) s
  /\ C_WriteEPS (do_call c k) s'
     = (C_WriteEPS c ;;
        forEach (fun l => emit (EPS_Write nl) ;; layer_WriteEPS l)
                (new_layers c k)) s'
  /\ C_WriteImage (do_call c k) dpi
     = (r ← C_WriteImage c dpi;
        Some (match r with
              | Ok _ img =>
                  forEach (fun l => layer_WriteImage l (dpi * InchPerMm)
                                                     (w c) (h c))
                          (new_layers c k) img
              | Panic msg img => Panic msg img
              end)).
Proof.
  split_and!.
  - unfold C_WritePDF. rewrite layers_do_call. apply forEach_app.
  - unfold C_WriteEPS. rewrite layers_do_call. apply forEach_app.
  - unfold C_WriteImage. rewrite background_do_call, layers_do_call.
    destruct (do_call_size c k) as [-> ->].
    destruct (background c dpi) as [img|]; [|done]. cbn.
    rewrite forEach_app. unfold bind.
    by destruct (forEach _ (layers c) img) as [[] img'|].
Qed.

Lemma pathLayer_WritePDF_returns path ds s :
  panicked (pathLayer_WritePDF FillRule path ds s) = false.
Proof. by rewrite (pathLayer_WritePDF_emits FillRule path ds s). Qed.

Lemma pathLayer_WriteEPS_returns path ds s :
  panicked (pathLayer_WriteEPS path ds s) = false.
Proof. by rewrite pathLayer_WriteEPS_calls. Qed.

Lemma text_loop_panicked {St} (body : Path -> color.RGBA -> Wr St unit)
    (colors : list color.RGBA) paths s :
  (forall path color s, panicked (body path color s) = false) ->
  panicked (forEachIdx (fun i path => color <- index colors i ;;
                                      body path color) 0 paths s)
  = bool_decide (length colors < length paths)%nat.
Proof.
  intros Hbody. case_bool_decide as Hlen.
  - apply text_loop_panics. lia.
  - apply text_loop_returns; [done|lia].
Qed.

(** X15: in the PDF, EPS and raster backends a text layer panics, with
    an index out of range, exactly when its text comes with fewer colours
    than paths. *)
Theorem text_layer_panics text x y rot s s' dpm w h img :
  panicked (textLayer_WritePDF FillRule text x y rot s)
  = bool_decide (length (ToPaths text).2 < length (ToPaths text).1)%nat
  /\ panicked (textLayer_WriteEPS text x y rot s')
     = bool_decide (length (ToPaths text).2 < length (ToPaths text).1)%nat
  /\ panicked (textLayer_WriteImage text x y rot dpm w h img)
     = bool_decide (length (ToPaths text).2 < length (ToPaths text).1)%nat.
Proof.
  unfold textLayer_WritePDF, textLayer_WriteEPS, textLayer_WriteImage.
  destruct (ToPaths text) as [paths colors]. cbn [fst snd]. split_and!.
  - apply (text_loop_panicked
             (fun path color =>
                pathLayer_WritePDF FillRule
                  (Translate x y (Rotate rot 0 0 path)) (text_state color))).
    intros. apply pathLayer_WritePDF_returns.
  - apply (text_loop_panicked
             (fun path color =>
                pathLayer_WriteEPS
                  (Translate x y (Rotate rot 0 0 path)) (text_state color))).
    intros. apply pathLayer_WriteEPS_returns.
  - apply (text_loop_panicked
             (fun path color =>
                pathLayer_WriteImage
                  (Translate x y (Rotate rot 0 0 path)) (text_state color)
                  dpm w h)).
    intros. apply pathLayer_WriteImage_returns.
Qed.

(** X16: a text with colours enough is written, path by path, as a path
    layer: the path rotated about the origin and then moved to the place
    of the text, its colour as the fill and the default draw state for
    the rest.  In EPS that is one filled path per path of the text. *)
Theorem text_layer_as_path_layers text x y rot s s' :
  (length (ToPaths text).1 <= length (ToPaths text).2)%nat ->
  textLayer_WritePDF FillRule text x y rot s
  = Ok tt (s ++ concat
                  (zip_with
                     (fun path color =>
                        calls (pathLayer_WritePDF FillRule
                                 (Translate x y (Rotate rot 0 0 path))
                                 (text_state color)))
                     (ToPaths text).1 (ToPaths text).2))
  /\ textLayer_WriteEPS text x y rot s'
     = Ok tt (s' ++ concat
                      (zip_with
                         (fun path color =>
                            [EPS_SetColor color; EPS_Write " ";
                             EPS_Write
                               (ToPS (Translate x y (Rotate rot 0 0 path)));
                             EPS_Write " fill"])
                         (ToPaths text).1 (ToPaths text).2)).
Proof.
  unfold textLayer_WritePDF, textLayer_WriteEPS.
  destruct (ToPaths text) as [paths colors]. cbn [fst snd]. intros Hlen.
  split.
  - apply (text_loop_emits
             (fun path color =>
                pathLayer_WritePDF FillRule
                  (Translate x y (Rotate rot 0 0 path)) (text_state color))
             _ colors paths); [|cbn; lia].
    intros. apply pathLayer_WritePDF_emits.
  - apply (text_loop_emits
             (fun path color =>
                pathLayer_WriteEPS
                  (Translate x y (Rotate rot 0 0 path)) (text_state color))
             _ colors paths); [|cbn; lia].
    intros path color s0. apply pathLayer_WriteEPS_calls.
Qed.

Lemma without_idle_stroke_WriteImage l dpm w h img :
  layer_WriteImage (without_idle_stroke l) dpm w h img
  = layer_WriteImage l dpm w h img.
Proof.
  destruct l as [path ds|]; [|done]. cbn.
  destruct (stroke_active ds) eqn:Hstroke; [done|].
  unfold pathLayer_WriteImage. unfold stroke_active in Hstroke.
  rewrite Hstroke. reflexivity.
Qed.

(** X17: the raster export does not depend on the stroke of a layer whose
    stroke is inactive (alpha 0, or a width that is not above 0): with
    the stroke colour of every such layer taken away the image is the
    same. *)
Theorem WriteImage_ignores_idle_strokes (c : C) dpi :
  C_WriteImage (with_layers (without_idle_stroke <$> layers c) c) dpi
  = C_WriteImage c dpi.
Proof.
  unfold C_WriteImage.
  change (background (with_layers _ c) dpi) with (background c dpi).
  destruct (background c dpi) as [img|]; [|done]. cbn. f_equal.
  apply forEach_fmap_ext. intros l img'. apply without_idle_stroke_WriteImage.
Qed.

Lemma hidden_WritePDF l s :
  visible l = false -> layer_WritePDF FillRule l s = Ok tt s.
Proof.
  destruct l as [path ds|]; [|done]. cbn. unfold pathLayer_WritePDF.
  unfold fill_active, stroke_active.
  intros [-> ->]%orb_false_iff. reflexivity.
Qed.

Lemma hidden_WriteImage l dpm w h img :
  visible l = false -> layer_WriteImage l dpm w h img = Ok tt img.
Proof.
  destruct l as [path ds|]; [|done]. cbn. unfold pathLayer_WriteImage.
  unfold fill_active, stroke_active.
  intros [-> ->]%orb_false_iff. reflexivity.
Qed.

(** X10: the PDF and raster backends skip the path layers whose fill and
    stroke are both inactive: the export is that of the canvas without
    them. *)
Theorem hidden_layers_are_skipped (c : C) s dpi :
  C_WritePDF FillRule (with_layers (List.filter visible (layers c)) c) s
  = C_WritePDF FillRule c s
  /\ C_WriteImage (with_layers (List.filter visible (layers c)) c) dpi
     = C_WriteImage c dpi.
Proof.
  split.
  - unfold C_WritePDF. cbn. apply forEach_filter. intros l s0.
    apply hidden_WritePDF.
  - unfold C_WriteImage.
    change (background (with_layers _ c) dpi) with (background c dpi).
    destruct (background c dpi) as [img|]; [|done]. cbn. f_equal.
    apply forEach_filter. intros l img'. apply hidden_WriteImage.
Qed.
End Exports.

(** * The backends on concrete layers *)

Section Examples.
#[local] Existing Instance Demo.externals.

(** C1: an opaque black fill and an opaque red stroke with the unbounded
    miter joiner are expressible by the rule of the specification, yet
    the layer is not written as one native path: the stroke is the
    outline, filled. *)
Lemma WritePDF_unbounded_miter_by_hand :
  ~ native_when_expressible
      (calls (pathLayer_WritePDF NonZero Demo.square
                (Demo.style Black Demo.Red Demo.unbounded_miter)))
      (Demo.style Black Demo.Red Demo.unbounded_miter).
Proof.
  unfold native_when_expressible. intros [_ Hnative].
  assert (Hfalse : single_paint
            (calls (pathLayer_WritePDF NonZero Demo.square
                      (Demo.style Black Demo.Red Demo.unbounded_miter)))
          = false) by (vm_compute; reflexivity).
  rewrite Hnative in Hfalse; [discriminate|].
  split; vm_compute; reflexivity.
Qed.

Example WritePDF_unbounded_miter_calls :
  calls (pathLayer_WritePDF NonZero Demo.square
           (Demo.style Black Demo.Red Demo.unbounded_miter))
  = [PDF_SetFillColor Black; PDF_Write " ";
     PDF_Write "0 0 m 10 0 l 10 10 l 0 10 l"; PDF_Write " f";
     PDF_SetFillColor Demo.Red; PDF_Write " ";
     PDF_Write "0 1 m 10 1 l 10 11 l 0 11 l h 0 -1 m 10 -1 l 10 9 l 0 9 l h";
     PDF_Write " f"].
Proof. vm_compute. reflexivity. Qed.

Lemma WritePDF_native_rule_witness :
  fill_active (Demo.style Black Demo.Red bevelJoiner)
  || stroke_active (Demo.style Black Demo.Red bevelJoiner) = true
  /\ single_paint
       (calls (pathLayer_WritePDF NonZero Demo.square
                 (Demo.style Black Demo.Red bevelJoiner))) = true.
Proof.
  split; [reflexivity|].
  destruct (WritePDF_native_rule NonZero Demo.square
              (Demo.style Black Demo.Red bevelJoiner) eq_refl) as [-> _].
  reflexivity.
Defined.

(** C2: a black fill of alpha 255 and a red stroke of alpha 128 with the
    bevel joiner: the alphas differ, and the stroke is a native stroke. *)
Lemma WritePDF_different_alpha_native_stroke :
  ~ fallback_fills_twice
      (calls (pathLayer_WritePDF NonZero Demo.square
                (Demo.style Black Demo.HalfRed bevelJoiner)))
      (Demo.style Black Demo.HalfRed bevelJoiner).
Proof.
  unfold fallback_fills_twice. intros Hclaim.
  destruct Hclaim as [Hnative _]; [left; vm_compute; reflexivity|].
  vm_compute in Hnative. discriminate.
Qed.

Example WritePDF_different_alpha_calls :
  calls (pathLayer_WritePDF NonZero Demo.square
           (Demo.style Black Demo.HalfRed bevelJoiner))
  = [PDF_SetFillColor Black; PDF_Write " ";
     PDF_Write "0 0 m 10 0 l 10 10 l 0 10 l"; PDF_Write " f";
     PDF_SetStrokeColor Demo.HalfRed; PDF_SetLineWidth 1;
     PDF_SetLineCap buttCapper; PDF_SetLineJoin bevelJoiner;
     PDF_SetDashes 0 []; PDF_Write " ";
     PDF_Write "0 0 m 10 0 l 10 10 l 0 10 l"; PDF_Write " s"].
Proof. vm_compute. reflexivity. Qed.

Lemma WritePDF_fallback_witness :
  fill_active (Demo.style Black Demo.Red Demo.unbounded_miter)
  || stroke_active (Demo.style Black Demo.Red Demo.unbounded_miter) = true
  /\ pdf_unsupported Demo.unbounded_miter = true
  /\ native_stroke
       (calls (pathLayer_WritePDF NonZero Demo.square
                 (Demo.style Black Demo.Red Demo.unbounded_miter))) = false.
Proof.
  split; [reflexivity|]. split; [reflexivity|].
  destruct (WritePDF_fallback NonZero Demo.square
              (Demo.style Black Demo.Red Demo.unbounded_miter) eq_refl)
    as [Hunsupported _].
  destruct (Hunsupported eq_refl) as [_ ->]. reflexivity.
Defined.

(** C3: a black fill and an active red stroke: EPS sets the fill colour
    and fills the path; the stroke colour is never set. *)
Lemma WriteEPS_paints_no_stroke :
  ~ eps_fills_outline
      (calls (pathLayer_WriteEPS Demo.corner
                (Demo.style Black Demo.Red bevelJoiner)))
      Demo.corner (Demo.style Black Demo.Red bevelJoiner).
Proof.
  unfold eps_fills_outline. intros Hclaim.
  destruct Hclaim as [Hcolor _]; [vm_compute; reflexivity|].
  apply list_elem_of_In in Hcolor. vm_compute in Hcolor.
  intuition discriminate.
Qed.

Example WriteEPS_corner_calls :
  calls (pathLayer_WriteEPS Demo.corner
           (Demo.style Black Demo.Red bevelJoiner))
  = [EPS_SetColor Black; EPS_Write " ";
     EPS_Write "0 0 moveto 10 0 lineto 10 10 lineto"; EPS_Write " fill"].
Proof. vm_compute. reflexivity. Qed.

Lemma DrawPath_empty_witness :
  Empty Demo.nothing = true
  /\ (DrawPath 3 4 Demo.nothing (New 100 50) = New 100 50
      /\ length (layers (DrawPath 3 4 Demo.nothing (New 100 50)))
         = length (layers (New 100 50))).
Proof.
  split; [reflexivity|].
  apply (DrawPath_empty 3 4 Demo.nothing (New 100 50)). reflexivity.
Defined.

Lemma WriteSVG_unknown_style_panics_witness :
  pathLayer Demo.square Demo.foreign_cap
    ∈ layers (DrawPath 0 0 Demo.square
                (SetStrokeCapper (otherCapper 1)
                   (SetStrokeColor Demo.Red (New 100 50))))
  /\ stroke_active Demo.foreign_cap = true
  /\ capper_known (strokeCapper Demo.foreign_cap)
     && joiner_known (strokeJoiner Demo.foreign_cap) = false
  /\ panicked
       (C_WriteSVG NonZero
          (DrawPath 0 0 Demo.square
             (SetStrokeCapper (otherCapper 1)
                (SetStrokeColor Demo.Red (New 100 50)))) []) = true.
Proof.
  assert (Hin : pathLayer Demo.square Demo.foreign_cap
                  ∈ layers (DrawPath 0 0 Demo.square
                              (SetStrokeCapper (otherCapper 1)
                                 (SetStrokeColor Demo.Red (New 100 50))))).
  { exact (list_elem_of_here _ []). }
  split; [exact Hin|]. split; [reflexivity|]. split; [reflexivity|].
  exact (proj2 (WriteSVG_unknown_style_panics NonZero _ _ _ []
                  Hin eq_refl eq_refl)).
Defined.

Lemma WriteSVG_dash_attributes_witness :
  stroke_active Demo.dashed = true
  /\ capper_known (strokeCapper Demo.dashed) = true
  /\ joiner_known (strokeJoiner Demo.dashed) = true
  /\ (svg_emits ";stroke-dasharray:%g"
        (final (pathLayer_WriteSVG NonZero Demo.corner Demo.dashed 50 []))
      = true <-> dashes Demo.dashed <> []).
Proof.
  split; [reflexivity|]. split; [reflexivity|]. split; [reflexivity|].
  exact (proj1 (proj2 (WriteSVG_dash_attributes NonZero Demo.corner
                         Demo.dashed 50 eq_refl eq_refl eq_refl))).
Defined.

Example WriteSVG_dashed_calls :
  calls (pathLayer_WriteSVG EvenOdd Demo.corner Demo.dashed 50)
  = [SVG_Write ("<path d=" +:+ dq); SVG_Write "M0 50L10 50L10 40";
     SVG_Fprintf (dq +:+ " style=" +:+ dq +:+ "stroke:%s")
       [AString "rgba(255,0,0,128)"];
     SVG_Fprintf ";stroke-width:%g" [AFloat 2];
     SVG_Fprintf ";stroke-linecap:round" [];
     SVG_Fprintf ";stroke-linejoin:miter-clip" [];
     SVG_Fprintf ";stroke-miterlimit:%g" [AFloat 3];
     SVG_Fprintf ";stroke-dasharray:%g" [AFloat 1];
     SVG_Fprintf " %g" [AFloat 2]; SVG_Fprintf " %g" [AFloat 3];
     SVG_Fprintf ";stroke-dashoffset:%g" [AFloat 1];
     SVG_Fprintf ";fill:%s" [AString "rgba(255,0,0,255)"];
     SVG_Fprintf ";fill-rule:evenodd" []; SVG_Write (dq +:+ "/>")].
Proof. vm_compute. reflexivity. Qed.

Lemma WritePDF_close_variant_witness :
  stroke_active (Demo.style Black Demo.Red bevelJoiner) = true
  /\ pdf_unsupported bevelJoiner = false
  /\ ToPDF Demo.square = "0 0 m 10 0 l 10 10 l 0 10 l" +:+ " h"
  /\ paint_operator
       (calls (pathLayer_WritePDF NonZero Demo.square
                 (Demo.style Black Demo.Red bevelJoiner))) = Some " b".
Proof.
  split; [reflexivity|]. split; [reflexivity|].
  split; [vm_compute; reflexivity|].
  destruct (WritePDF_close_variant NonZero Demo.square
              (Demo.style Black Demo.Red bevelJoiner) eq_refl eq_refl)
    as [Hclosed _].
  rewrite Hclosed; [reflexivity|].
  exists "0 0 m 10 0 l 10 10 l 0 10 l". vm_compute. reflexivity.
Defined.


Example WriteImage_below_the_half_sizes :
  image_size (New 444.5 50) 5 = Some (87, 10)
  /\ spec_pixels 444.5 5 = Some 88
  /\ spec_pixels 50 5 = Some 10.
Proof. vm_compute. repeat split. Qed.


End Examples.

(** * The further properties on concrete layers *)

Section MoreExamples.
#[local] Existing Instance Demo.externals.

Lemma setter_persists_witness :
  forallb (fun s' => negb (same_field (CallSetStrokeWidth 2) s'))
          [CallSetFillColor Demo.Red; CallSetDashes 1 [3; 4]%float] = true
  /\ Empty Demo.square = false
  /\ strokeWidth
       (C_drawState
          (call_setters [CallSetStrokeWidth 2; CallSetFillColor Demo.Red;
                         CallSetDashes 1 [3; 4]%float] (New 100 50))) = 2%float.
Proof.
  split; [reflexivity|]. split; [reflexivity|].
  destruct (setter_persists (CallSetStrokeWidth 2)
              [CallSetFillColor Demo.Red; CallSetDashes 1 [3; 4]%float]
              0 0 Demo.square (New 100 50) eq_refl eq_refl) as (p & _ & Hwidth).
  exact Hwidth.
Defined.

Lemma WriteSVG_idle_stroke_witness :
  stroke_active Samples.red_fill = false
  /\ pathLayer_WriteSVG NonZero Demo.square Samples.red_fill 50 []
     = Ok tt [SVG_Write ("<path d=" +:+ dq);
              SVG_Write "M0 50L10 50L10 40L0 40z";
              SVG_Fprintf (dq +:+ " fill=" +:+ dq +:+ "%s")
                [AString "rgba(255,0,0,255)"];
              SVG_Write (dq +:+ "/>")].
Proof.
  split; [reflexivity|].
  etrans; [apply (WriteSVG_idle_stroke NonZero); reflexivity|].
  vm_compute. reflexivity.
Defined.

Lemma WriteSVG_width_and_cap_witness :
  stroke_active Demo.dashed = true
  /\ capper_known (strokeCapper Demo.dashed) = true
  /\ joiner_known (strokeJoiner Demo.dashed) = true
  /\ svg_emits ";stroke-linecap:round"
       (final (pathLayer_WriteSVG NonZero Demo.corner Demo.dashed 50 []))
     = true.
Proof.
  split; [reflexivity|]. split; [reflexivity|]. split; [reflexivity|].
  exact (proj1 (proj2 (WriteSVG_width_and_cap NonZero Demo.corner
                         Demo.dashed 50 eq_refl eq_refl eq_refl))).
Defined.

Lemma WriteSVG_join_witness :
  stroke_active Demo.dashed = true
  /\ capper_known (strokeCapper Demo.dashed) = true
  /\ joiner_known (strokeJoiner Demo.dashed) = true
  /\ svg_emits ";stroke-miterlimit:%g"
       (final (pathLayer_WriteSVG NonZero Demo.corner Demo.dashed 50 []))
     = true.
Proof.
  split; [reflexivity|]. split; [reflexivity|]. split; [reflexivity|].
  destruct (WriteSVG_join NonZero Demo.corner Demo.dashed 50
              eq_refl eq_refl eq_refl) as (_ & _ & _ & _ & Hlimit).
  exact Hlimit.
Defined.

Lemma WriteSVG_fill_witness :
  stroke_active Demo.dashed = true
  /\ capper_known (strokeCapper Demo.dashed) = true
  /\ joiner_known (strokeJoiner Demo.dashed) = true
  /\ svg_emits ";fill:%s"
       (final (pathLayer_WriteSVG NonZero Demo.corner Demo.dashed 50 []))
     = true.
Proof.
  split; [reflexivity|]. split; [reflexivity|]. split; [reflexivity|].
  exact (proj1 (WriteSVG_fill NonZero Demo.corner Demo.dashed 50
                  eq_refl eq_refl eq_refl)).
Defined.


Lemma WritePDF_one_path_witness :
  fill_active (Demo.style Black Demo.Red bevelJoiner)
  || stroke_active (Demo.style Black Demo.Red bevelJoiner) = true
  /\ pdf_unsupported bevelJoiner = false
  /\ differentAlpha (Demo.style Black Demo.Red bevelJoiner) = false
  /\ calls (pathLayer_WritePDF EvenOdd Demo.square
              (Demo.style Black Demo.Red bevelJoiner))
     = [PDF_SetFillColor Black; PDF_SetStrokeColor Demo.Red;
        PDF_SetLineWidth 1; PDF_SetLineCap buttCapper;
        PDF_SetLineJoin bevelJoiner; PDF_SetDashes 0 [];
        PDF_Write " "; PDF_Write "0 0 m 10 0 l 10 10 l 0 10 l h";
        PDF_Write " b"; PDF_Write "*"].
Proof.
  split; [reflexivity|]. split; [reflexivity|]. split; [reflexivity|].
  etrans; [apply (WritePDF_one_path EvenOdd); reflexivity|].
  vm_compute. reflexivity.
Defined.

Lemma WritePDF_two_pass_strips_close_witness :
  fill_active (Demo.style Black Demo.HalfRed bevelJoiner)
  || stroke_active (Demo.style Black Demo.HalfRed bevelJoiner) = true
  /\ pdf_unsupported bevelJoiner
     || differentAlpha (Demo.style Black Demo.HalfRed bevelJoiner) = true
  /\ ToPDF Demo.square = "0 0 m 10 0 l 10 10 l 0 10 l" +:+ " h"
  /\ exists rest,
       calls (pathLayer_WritePDF NonZero Demo.square
                (Demo.style Black Demo.HalfRed bevelJoiner))
       = [PDF_SetFillColor Black; PDF_Write " ";
          PDF_Write "0 0 m 10 0 l 10 10 l 0 10 l"; PDF_Write " f"] ++ rest.
Proof.
  split; [reflexivity|]. split; [reflexivity|].
  split; [vm_compute; reflexivity|].
  apply (WritePDF_two_pass_strips_close NonZero Demo.square
           (Demo.style Black Demo.HalfRed bevelJoiner)
           "0 0 m 10 0 l 10 10 l 0 10 l"); [reflexivity..|].
  vm_compute. reflexivity.
Defined.

Lemma WritePDF_export_witness :
  forallb is_pathLayer (layers Samples.one_square) = true
  /\ panicked (C_WritePDF NonZero Samples.one_square []) = false.
Proof.
  split; [reflexivity|].
  rewrite (WritePDF_export NonZero Samples.one_square [] eq_refl).
  reflexivity.
Defined.

Lemma text_layer_as_path_layers_witness :
  (length (ToPaths Samples.red_square).1
   <= length (ToPaths Samples.red_square).2)%nat
  /\ textLayer_WriteEPS Samples.red_square 1 2 0 []
     = Ok tt [EPS_SetColor Demo.Red; EPS_Write " ";
              EPS_Write
                "1 2 moveto 11 2 lineto 11 12 lineto 1 12 lineto closepath";
              EPS_Write " fill"].
Proof.
  assert (Hlen : (length (ToPaths Samples.red_square).1
                  <= length (ToPaths Samples.red_square).2)%nat)
    by (vm_compute; lia).
  split; [exact Hlen|].
  etrans; [apply (proj2 (text_layer_as_path_layers NonZero
                           Samples.red_square 1 2 0 [] [] Hlen))|].
  vm_compute. reflexivity.
Defined.

End MoreExamples.
